(** * Bach expression algebra and Series operation engine

    A shallow embedding of [bach/expression.py] and of the operation
    builders of [bach/series/series.py], with the properties claimed of
    them.  Python exceptions are modelled by the [result] type; Python
    class identity of an [Expression] is the [cls] field of the embedded
    value. *)

From Stdlib Require Import String Ascii List Bool Arith ZArith Lia.
From Stdlib Require Import Numbers.DecimalString.
Import ListNotations.
Open Scope string_scope.
Open Scope list_scope.

Set Implicit Arguments.

(* ================================================================== *)
(** ** Exceptions *)

(** Python exception classes raised by the modelled code. *)
Inductive PyExc : Type :=
| ValueError
| TypeError
| NotImplementedError
| IndexError
| PlainException.

(** One constructor per [raise] site of the modelled code. *)
Inductive error : Type :=
| PlaceholderCountMismatch          (* Expression.construct *)
| OperandIndexOutOfRange            (* args[i - 1] out of range *)
| UnresolvedColumnReference         (* Expression.to_sql *)
| UnknownTokenKind                  (* Expression.to_sql, last branch *)
| RhsContextMismatch                (* Series._get_supported *)
| DtypeNotSupported                 (* Series._get_supported *)
| BinaryOperationNotSupported       (* Series._binary_operation *)
| UnknownDtype                      (* get_series_type_from_dtype *)
| SkipnaNotSupported                (* Series._derived_agg_func *)
| AlreadyWindowed                   (* Series._derived_agg_func *)
| AlreadyAggregated                 (* Series._derived_agg_func *)
| GroupByNotInstance                (* Series._check_unwrap_groupby *)
| GroupByNotSupported               (* Series._check_unwrap_groupby *)
| MinCountConflict                  (* Series._derived_agg_func *)
| PartitionMismatch                 (* Series._derived_agg_func *)
| NoAggregationFunction             (* Series._derived_agg_func *)
| RecursionLimit.                   (* fuel of the embedding exhausted *)

Definition exception_class (e : error) : PyExc :=
  match e with
  | PlaceholderCountMismatch => ValueError
  | OperandIndexOutOfRange => IndexError
  | UnresolvedColumnReference => ValueError
  | UnknownTokenKind => PlainException
  | RhsContextMismatch => ValueError
  | DtypeNotSupported => TypeError
  | BinaryOperationNotSupported => NotImplementedError
  | UnknownDtype => ValueError
  | SkipnaNotSupported => NotImplementedError
  | AlreadyWindowed => ValueError
  | AlreadyAggregated => ValueError
  | GroupByNotInstance => ValueError
  | GroupByNotSupported => ValueError
  | MinCountConflict => NotImplementedError
  | PartitionMismatch => ValueError
  | NoAggregationFunction => ValueError
  | RecursionLimit => PlainException
  end.

Inductive result (A : Type) : Type :=
| Ok (a : A)
| Raise (e : error).
Arguments Ok {A} a.
Arguments Raise {A} e.

Definition bind {A B : Type} (r : result A) (k : A -> result B) : result B :=
  match r with
  | Ok a => k a
  | Raise e => Raise e
  end.

Notation "x <- r ;; k" := (bind r (fun x => k))
  (at level 61, r at next level, right associativity).

(* ================================================================== *)
(** ** Tokens and expressions *)

(** Modelled from the spec: [SqlModel], of the sql_models package, which is
    missing from the sources.  A compiled unit is opaque to bach; it exposes
    a stable content hash, and two units are equal when their hashes are. *)
Record SqlModel : Type := { hash : string }.

Definition SqlModel_eqb (a b : SqlModel) : bool := String.eqb (hash a) (hash b).

Inductive ExpressionToken : Type :=
| RawToken (raw : string)
| AggFunctionRawToken (raw : string)
| ColumnReferenceToken (column_name : string)
| ModelReferenceToken (model : SqlModel)
| StringValueToken (value : string).

Definition refname (model : SqlModel) : string := ("reference" ++ hash model)%string.

(** Modelled from the spec: the classes [AggregateFunction] and [Windowed].
    series.py imports [AggregateFunctionExpression] and reads
    [has_windowed_aggregate_function], which expression.py does not define;
    the spec describes them as tag subtypes that carry their flag as class
    identity and serve to detect a second aggregation.  They inherit all
    other properties of the base class.  The first five classes are those
    of expression.py. *)
Inductive ExprClass : Type :=
| Plain                 (* Expression *)
| NonAtomic             (* NonAtomicExpression *)
| IndependentSubquery   (* IndependentSubqueryExpression *)
| SingleValue           (* SingleValueExpression *)
| ConstValue            (* ConstValueExpression(SingleValueExpression) *)
| AggregateFunction     (* AggregateFunctionExpression *)
| Windowed.             (* windowed expression *)

Inductive Expression : Type :=
| Expr (cls : ExprClass) (data : list Element)
with Element : Type :=
| Tok (t : ExpressionToken)
| Sub (e : Expression).

Definition cls_of (e : Expression) : ExprClass :=
  match e with Expr c _ => c end.

Definition data (e : Expression) : list Element :=
  match e with Expr _ d => d end.

(** [type(x) is Expression] *)
Definition is_plain (e : Expression) : bool :=
  match cls_of e with Plain => true | _ => false end.

(** [x.data if type(x) is Expression else [x]] *)
Definition splice (x : Element) : list Element :=
  match x with
  | Sub (Expr Plain d) => d
  | _ => [x]
  end.

(** [Expression.__init__] called with a list (or [None]). *)
Definition new_Expression (cls : ExprClass) (l : list Element) : Expression :=
  Expr cls (flat_map splice l).

(** [Expression.__init__] called with an Expression as [data]: the
    argument's elements are taken, whatever its class. *)
Definition new_Expression_of (cls : ExprClass) (e : Expression) : Expression :=
  new_Expression cls (data e).

(** Factory class methods. *)
Definition raw (cls : ExprClass) (s : string) : Expression :=
  new_Expression cls [Tok (RawToken s)].
Definition agg_function_raw (cls : ExprClass) (s : string) : Expression :=
  new_Expression cls [Tok (AggFunctionRawToken s)].
Definition string_value (cls : ExprClass) (s : string) : Expression :=
  new_Expression cls [Tok (StringValueToken s)].
Definition column_reference (cls : ExprClass) (field_name : string) : Expression :=
  new_Expression cls [Tok (ColumnReferenceToken field_name)].
Definition model_reference (cls : ExprClass) (model : SqlModel) : Expression :=
  new_Expression cls [Tok (ModelReferenceToken model)].

(* ------------------------------------------------------------------ *)
(** *** [str.split('{}')] *)

Definition lbrace : ascii := "{"%char.
Definition rbrace : ascii := "}"%char.

Fixpoint split_fmt (s : string) : list string :=
  match s with
  | EmptyString => [EmptyString]
  | String c rest =>
      let keep :=
        match split_fmt rest with
        | h :: t => String c h :: t
        | [] => [String c EmptyString]
        end in
      match rest with
      | String c' rest' =>
          if (Ascii.eqb c lbrace && Ascii.eqb c' rbrace)%bool
          then EmptyString :: split_fmt rest'
          else keep
      | EmptyString => keep
      end
  end.

(* ------------------------------------------------------------------ *)
(** *** [Expression.construct] *)

Definition is_NonAtomic (e : Expression) : bool :=
  match cls_of e with NonAtomic => true | _ => false end.

(** The elements appended for one operand. *)
Definition operand_elements (arg_expr : Expression) : list Element :=
  if is_NonAtomic arg_expr
  then [Tok (RawToken "("); Sub arg_expr; Tok (RawToken ")")]
  else [Sub arg_expr].

(** The element appended for one piece of template text. *)
Definition text_elements (sub_str : string) : list Element :=
  if String.eqb sub_str EmptyString then [] else [Tok (RawToken sub_str)].

(** The body of [for i, sub_str in enumerate(sub_strs)], from index [i]. *)
Fixpoint construct_loop (i : nat) (sub_strs : list string) (args : list Expression)
  : result (list Element) :=
  match sub_strs with
  | [] => Ok []
  | sub_str :: rest =>
      ops <- match i with
             | 0 => Ok []
             | S j => match nth_error args j with
                      | Some arg_expr => Ok (operand_elements arg_expr)
                      | None => Raise OperandIndexOutOfRange
                      end
             end ;;
      tl <- construct_loop (S i) rest args ;;
      Ok (ops ++ text_elements sub_str ++ tl)
  end.

(** [Expression.construct], a class method: [cls] is the class it is called
    on.  An operand that is a Series stands for its expression; the callers
    in the Series layer pass [expression s]. *)
Definition construct (cls : ExprClass) (fmt : string) (args : list Expression)
  : result Expression :=
  let sub_strs := split_fmt fmt in
  if negb (Nat.eqb (length args) (length sub_strs - 1))
  then Raise PlaceholderCountMismatch
  else d <- construct_loop 0 sub_strs args ;; Ok (new_Expression cls d).

(* ------------------------------------------------------------------ *)
(** *** Helpers of the [sql_models] package

    [quote_identifier], [quote_string] and
    [SqlModelSpec.escape_format_string] are imported by expression.py from
    the [sql_models] package.  The embedding takes them as an interface. *)

Class SqlUtil : Type := {
  quote_identifier : string -> string;
  quote_string : string -> string;
  escape_format_string : string -> string
}.

(** Python truthiness of [table_name: str = None]. *)
Definition truthy_name (table_name : option string) : bool :=
  match table_name with
  | None => false
  | Some s => negb (String.eqb s EmptyString)
  end.

Section Rendering.
Context {U : SqlUtil}.

(** [f'{quote_identifier(table_name)}.' if table_name else ''] *)
Definition table_prefix (table_name : option string) : string :=
  match table_name with
  | Some s => if truthy_name table_name
              then (quote_identifier s ++ ".")%string
              else EmptyString
  | None => EmptyString
  end.

(** [Expression.resolve_column_references] *)
Fixpoint resolve_column_references (e : Expression) (table_name : option string)
  : Expression :=
  match e with
  | Expr c d =>
      new_Expression c (map (fun x => resolve_item x table_name) d)
  end
with resolve_item (x : Element) (table_name : option string) : Element :=
  match x with
  | Sub d => Sub (resolve_column_references d table_name)
  | Tok (ColumnReferenceToken column_name) =>
      Tok (RawToken (table_prefix table_name ++ quote_identifier column_name)%string)
  | Tok t => Tok t
  end.

(** [''.join(result)] *)
Definition join (l : list string) : string :=
  fold_right String.append EmptyString l.

(** One iteration of the loop of [Expression.to_sql]; [to_sql_rec] is the
    recursive call [data_item.to_sql()].  The order of the cases is the
    order of the [isinstance] tests; [AggFunctionRawToken] is a subclass
    of [RawToken]. *)
Definition render_item (to_sql_rec : Expression -> result string)
  (data_item : Element) : result string :=
  match data_item with
  | Sub d => to_sql_rec d
  | Tok (ColumnReferenceToken _) => Raise UnresolvedColumnReference
  | Tok (ModelReferenceToken m) => Ok ("{" ++ refname m ++ "}")%string
  | Tok (RawToken r) => Ok (escape_format_string r)
  | Tok (AggFunctionRawToken r) => Ok (escape_format_string r)
  | Tok (StringValueToken v) => Ok (escape_format_string (quote_string v))
  end.

Fixpoint render_items (to_sql_rec : Expression -> result string)
  (items : list Element) : result (list string) :=
  match items with
  | [] => Ok []
  | data_item :: rest =>
      s <- render_item to_sql_rec data_item ;;
      tl <- render_items to_sql_rec rest ;;
      Ok (s :: tl)
  end.

(** [Expression.to_sql].  The method calls itself on the elements of the
    resolved expression, which are not sub-terms of [self]; [fuel] bounds
    the nesting of those calls. *)
Fixpoint to_sql_fuel (fuel : nat) (e : Expression) (table_name : option string)
  : result string :=
  match fuel with
  | 0 => Raise RecursionLimit
  | S fuel' =>
      r <- render_items (fun d => to_sql_fuel fuel' d None)
             (data (resolve_column_references e table_name)) ;;
      Ok (join r)
  end.

End Rendering.

(** Nesting depth of an expression: enough fuel for [to_sql_fuel]. *)
Fixpoint depth (e : Expression) : nat :=
  match e with
  | Expr _ d => S (list_max (map depth_item d))
  end
with depth_item (x : Element) : nat :=
  match x with
  | Tok _ => 0
  | Sub d => depth d
  end.

Definition to_sql {U : SqlUtil} (e : Expression) (table_name : option string)
  : result string :=
  to_sql_fuel (S (depth e)) e table_name.

(* ------------------------------------------------------------------ *)
(** *** Derived properties *)

(** [isinstance(d, Expression)] children of an element list. *)
Definition sub_expressions (d : list Element) : list Expression :=
  flat_map (fun x => match x with Sub e => [e] | Tok _ => [] end) d.

(** [len(l) and all(l)], as a truth value. *)
Definition nonempty_and_all (l : list bool) : bool :=
  negb (Nat.eqb (length l) 0) && forallb (fun b => b) l.

(** [Expression.is_constant], overridden by [ConstValueExpression]. *)
Fixpoint is_constant (e : Expression) : bool :=
  match e with
  | Expr ConstValue _ => true
  | Expr _ d => nonempty_and_all (flat_map is_constant_item d)
  end
with is_constant_item (x : Element) : list bool :=
  match x with
  | Sub d => [is_constant d]
  | Tok _ => []
  end.

(** [Expression.is_single_value], overridden by [SingleValueExpression]
    (and so inherited by [ConstValueExpression]). *)
Fixpoint is_single_value (e : Expression) : bool :=
  match e with
  | Expr SingleValue _ => true
  | Expr ConstValue _ => true
  | Expr _ d => nonempty_and_all (flat_map is_single_value_item d)
  end
with is_single_value_item (x : Element) : list bool :=
  match x with
  | Sub d => [is_single_value d]
  | Tok _ => []
  end.

(** [Expression.is_independent_subquery], overridden by
    [IndependentSubqueryExpression]. *)
Definition is_independent_subquery (e : Expression) : bool :=
  match cls_of e with
  | IndependentSubquery => true
  | _ => false
  end.

(** Modelled from the spec: the case of the [AggregateFunction] class, whose
    definition is missing; series.py relies on an expression made by
    [AggregateFunctionExpression.construct] reporting true.  The other
    cases are [Expression.has_aggregate_function] of expression.py. *)
Fixpoint has_aggregate_function (e : Expression) : bool :=
  match e with
  | Expr AggregateFunction _ => true
  | Expr _ d => existsb has_aggregate_function_item d
  end
with has_aggregate_function_item (x : Element) : bool :=
  match x with
  | Sub d => has_aggregate_function d
  | Tok (AggFunctionRawToken _) => true
  | Tok _ => false
  end.

(** Modelled from the spec: [Expression.has_windowed_aggregate_function] is
    read by series.py but missing from expression.py.  By analogy with
    [has_aggregate_function]: true for an expression of the windowed class
    and for an expression with a nested expression that reports true. *)
Fixpoint has_windowed_aggregate_function (e : Expression) : bool :=
  match e with
  | Expr Windowed _ => true
  | Expr _ d => existsb has_windowed_aggregate_function_item d
  end
with has_windowed_aggregate_function_item (x : Element) : bool :=
  match x with
  | Sub d => has_windowed_aggregate_function d
  | Tok _ => false
  end.

(* ------------------------------------------------------------------ *)
(** *** [Expression.__eq__] *)

Definition ExpressionToken_eqb (a b : ExpressionToken) : bool :=
  match a, b with
  | RawToken x, RawToken y => String.eqb x y
  | AggFunctionRawToken x, AggFunctionRawToken y => String.eqb x y
  | ColumnReferenceToken x, ColumnReferenceToken y => String.eqb x y
  | ModelReferenceToken x, ModelReferenceToken y => SqlModel_eqb x y
  | StringValueToken x, StringValueToken y => String.eqb x y
  | _, _ => false
  end.

(** [isinstance(other, Expression) and self.data == other.data]: the
    classes of [self] and [other] are not compared; list equality compares
    the elements pairwise, tokens by the dataclass equality and nested
    expressions by this same function. *)
Fixpoint Expression_eqb (a b : Expression) : bool :=
  match a, b with
  | Expr _ da, Expr _ db =>
      (fix list_eqb (l1 l2 : list Element) : bool :=
         match l1, l2 with
         | [], [] => true
         | x :: l1', y :: l2' =>
             match x, y with
             | Tok s, Tok t => ExpressionToken_eqb s t
             | Sub d, Sub d' => Expression_eqb d d'
             | _, _ => false
             end && list_eqb l1' l2'
         | _, _ => false
         end) da db
  end.

(* ================================================================== *)
(** ** Series *)

(** Modelled from the spec: [GroupBy], of bach.partitioning, which is
    missing from the sources.  Of a partition series.py reads its [index],
    whether it is an instance of the subclass [Window] ([is_Window]), and
    the [min_values] of a window.  [Series] has the attributes set by
    [Series.__init__]; the class of a Series is identified by its
    [dtype]. *)
#[warnings="-register-all"]
Inductive Series : Type :=
  mkSeries {
    dtype : string;
    engine : string;
    base_node : SqlModel;
    index : list (string * Series);
    name : string;
    expression : Expression;
    group_by : option GroupBy;
    sorted_ascending : option bool
  }
with GroupBy : Type :=
  mkGroupBy {
    is_Window : bool;
    gb_index : list (string * Series);
    min_values : Z
  }.

(** [WrappedPartition = Union['GroupBy', 'DataFrame']]: of a DataFrame only
    its [group_by] is read. *)
Inductive Wrapped : Type :=
| WGroupBy (g : GroupBy)
| WDataFrame (df_group_by : option GroupBy).

(** What series.py uses of the rest of bach. *)
Class BachEnv : Type := {
  (** [get_series_type_from_dtype(dtype)]: the dtype of the Series class
      registered for a dtype or alias. *)
  get_series_type_from_dtype : string -> result string;
  (** [series.to_frame().materialize().base_node] *)
  materialize_base_node : Series -> SqlModel;
  (** [GroupBy.__eq__] *)
  GroupBy_eqb : GroupBy -> GroupBy -> bool;
  (** [Window.get_window_expression] *)
  get_window_expression : GroupBy -> Expression -> Expression
}.

(** Modelled from the spec: [GroupBy([])], the grouping over the whole
    input that [_derived_agg_func] synthesizes; its index is empty. *)
Definition GroupBy_empty : GroupBy := mkGroupBy false [] 0.

Definition option_eqb {A : Type} (eqb : A -> A -> bool) (a b : option A) : bool :=
  match a, b with
  | None, None => true
  | Some x, Some y => eqb x y
  | _, _ => false
  end.

(** [str.lower] on ASCII letters. *)
Definition lower_ascii (c : ascii) : ascii :=
  let n := nat_of_ascii c in
  if ((65 <=? n)%nat && (n <=? 90)%nat)%bool then ascii_of_nat (n + 32) else c.

Fixpoint lower (s : string) : string :=
  match s with
  | EmptyString => EmptyString
  | String c r => String (lower_ascii c) (lower r)
  end.

Definition truthy_str (s : string) : bool := negb (String.eqb s EmptyString).

(** [str(n)] for an integer. *)
Definition str_of_Z (n : Z) : string := NilZero.string_of_int (Z.to_int n).

Section SeriesOps.
Context {U : SqlUtil} {B : BachEnv}.

(** [Series.copy_override]: [None] leaves a field alone; [group_by] is
    passed in a one-element list, here [Some g]. *)
Definition copy_override (self : Series)
    (o_dtype : option string)
    (o_engine : option string)
    (o_base_node : option SqlModel)
    (o_index : option (list (string * Series)))
    (o_name : option string)
    (o_expression : option Expression)
    (o_group_by : option (option GroupBy))
    (o_sorted_ascending : option bool) : result Series :=
  klass <- match o_dtype with
           | None => Ok (dtype self)
           | Some d => get_series_type_from_dtype d
           end ;;
  Ok (mkSeries klass
        (match o_engine with None => engine self | Some x => x end)
        (match o_base_node with None => base_node self | Some x => x end)
        (match o_index with None => index self | Some x => x end)
        (match o_name with None => name self | Some x => x end)
        (match o_expression with None => expression self | Some x => x end)
        (match o_group_by with None => group_by self | Some x => x end)
        (match o_sorted_ascending with
         | None => sorted_ascending self
         | Some x => Some x
         end)).

(** The format string of [Series.as_independent_subquery]. *)
Definition subquery_fmt (operation : option string) : string :=
  match operation with
  | Some op => if truthy_str op
               then (op ++ " (SELECT {} FROM {})")%string
               else "(SELECT {} FROM {})"
  | None => "(SELECT {} FROM {})"
  end.

(** [Series.as_independent_subquery] *)
Definition as_independent_subquery (series : Series)
    (operation : option string) (o_dtype : option string) : result Series :=
  let df_base_node := materialize_base_node series in
  expr <- construct IndependentSubquery (subquery_fmt operation)
            [column_reference Plain (name series);
             model_reference Plain df_base_node] ;;
  let expr := if is_single_value (expression series)
              then new_Expression_of SingleValue expr
              else expr in
  copy_override series o_dtype None None (Some []) None (Some expr)
    (Some None) None.

(** [Series._get_supported] *)
Definition _get_supported (self : Series) (supported_dtypes : list string)
    (other : Series) : result Series :=
  other <-
    (if negb (is_constant (expression other)
              || is_independent_subquery (expression other))
     then
       if negb (SqlModel_eqb (base_node self) (base_node other))
          || negb (option_eqb GroupBy_eqb (group_by self) (group_by other))
       then
         if is_single_value (expression other)
         then as_independent_subquery other None None
         else Raise RhsContextMismatch
       else Ok other
     else Ok other) ;;
  if negb (existsb (String.eqb (lower (dtype other))) supported_dtypes)
  then Raise DtypeNotSupported
  else Ok other.

(** The [dtype] argument of [_binary_operation]: absent, a dtype, or a
    mapping from the dtype of the right-hand side. *)
Inductive DtypeArg : Type :=
| DtypeNone
| DtypeStr (d : string)
| DtypeMap (m : list (string * option string)).

Fixpoint dict_get {V : Type} (m : list (string * V)) (k : string) : option V :=
  match m with
  | [] => None
  | (k', v) :: r => if String.eqb k' k then Some v else dict_get r k
  end.

(** The dtype that [_binary_operation] passes to [copy_override]: the
    dtype given, or the one the mapping has for the dtype of the right-hand
    side, or none. *)
Definition result_dtype (dtype_arg : DtypeArg) (other : Series) : option string :=
  match dtype_arg with
  | DtypeNone => None
  | DtypeStr d => Some d
  | DtypeMap m => match dict_get m (dtype other) with
                  | None => None
                  | Some d => d
                  end
  end.

(** [Series._binary_operation] with a Series as right-hand side
    ([const_to_series] returns a Series unchanged). *)
Definition _binary_operation (self other : Series) (fmt_str : string)
    (other_dtypes : list string) (dtype_arg : DtypeArg) : result Series :=
  if Nat.eqb (length other_dtypes) 0 then Raise BinaryOperationNotSupported
  else
    other <- _get_supported self other_dtypes other ;;
    expression <- construct NonAtomic fmt_str
                    [expression self; expression other] ;;
    copy_override self (result_dtype dtype_arg other) None None None None
      (Some expression) None None.

(** The [isin] argument of [_check_unwrap_groupby]: [GroupBy] (also the
    default) or [Window]. *)
Inductive PartitionClass : Type := AnyGroupBy | OnlyWindow.

(** [Series._check_unwrap_groupby]; [notin_Window] stands for
    [notin=Window], its absence for the default [notin=()]. *)
Definition _check_unwrap_groupby (wrapped : option Wrapped)
    (isin : PartitionClass) (notin_Window : bool) : result GroupBy :=
  let group_by :=
    match wrapped with
    | Some (WDataFrame g) => g
    | Some (WGroupBy g) => Some g
    | None => None
    end in
  match group_by with
  | None => Raise GroupByNotInstance
  | Some g =>
      if negb (match isin with AnyGroupBy => true | OnlyWindow => is_Window g end)
      then Raise GroupByNotInstance
      else if notin_Window && is_Window g
      then Raise GroupByNotSupported
      else Ok g
  end.

(** The partition resolved by [_derived_agg_func]: the argument if there
    is one, else the pending [group_by] of the Series (a GroupBy object is
    truthy), else a grouping over the whole input. *)
Definition effective_partition (self : Series) (partition : option Wrapped)
  : result GroupBy :=
  match partition with
  | None => match group_by self with
            | Some g => Ok g
            | None => Ok GroupBy_empty
            end
  | Some _ => _check_unwrap_groupby partition AnyGroupBy false
  end.

(** The [expression] argument of [_derived_agg_func]: the name of an SQL
    function or an Expression. *)
Inductive AggExpr : Type :=
| AggName (fn : string)
| AggExpression (e : Expression).

(** [Series._derived_agg_func].  With a positive [min_count] and a
    partition that is not a window the method calls [self.count], which
    calls the method again without [min_count]; [fuel] bounds that
    nesting. *)
Fixpoint _derived_agg_func_fuel (fuel : nat) (self : Series)
    (partition : option Wrapped) (expression_arg : AggExpr)
    (dtype_arg : option string) (skipna : bool) (min_count : option Z)
  : result Series :=
  match fuel with
  | 0 => Raise RecursionLimit
  | S fuel' =>
      if negb skipna then Raise SkipnaNotSupported
      else if has_windowed_aggregate_function (expression self)
      then Raise AlreadyWindowed
      else if has_aggregate_function (expression self)
      then Raise AlreadyAggregated
      else
        expr <- match expression_arg with
                | AggName fn =>
                    construct AggregateFunction (fn ++ "({})")%string
                      [expression self]
                | AggExpression e => Ok e
                end ;;
        partition <- effective_partition self partition ;;
        expr <- match min_count with
                | Some n =>
                    if (0 <? n)%Z then
                      if is_Window partition then
                        if negb (Z.eqb (min_values partition) n)
                        then Raise MinCountConflict
                        else Ok expr
                      else
                        (* self.count(partition, skipna=skipna) *)
                        cnt <- _derived_agg_func_fuel fuel' self
                                 (Some (WGroupBy partition)) (AggName "count")
                                 (Some "int64") skipna None ;;
                        construct Plain
                          ("CASE WHEN {} >= " ++ str_of_Z n
                             ++ " THEN {} ELSE NULL END")%string
                          [expression cnt; expr]
                    else Ok expr
                | None => Ok expr
                end ;;
        let derived_dtype :=
          match dtype_arg with None => dtype self | Some d => d end in
        if negb (is_Window partition) then
          if match group_by self with
             | Some g => negb (GroupBy_eqb g partition)
             | None => false
             end
          then Raise PartitionMismatch
          else if negb (has_aggregate_function expr)
          then Raise NoAggregationFunction
          else
            let expr := match gb_index partition with
                        | [] => new_Expression_of SingleValue expr
                        | _ :: _ => expr
                        end in
            copy_override self (Some derived_dtype) None None
              (Some (gb_index partition)) None (Some expr)
              (Some (Some partition)) None
        else
          copy_override self (Some derived_dtype) None None None None
            (Some (get_window_expression partition expr)) None None
  end.

Definition _derived_agg_func := _derived_agg_func_fuel 2.

(** The named aggregations of the base class. *)
Definition count (self : Series) (partition : option Wrapped) (skipna : bool)
  : result Series :=
  _derived_agg_func self partition (AggName "count") (Some "int64") skipna None.

Definition max (self : Series) (partition : option Wrapped) (skipna : bool)
  : result Series :=
  _derived_agg_func self partition (AggName "max") None skipna None.

Definition min (self : Series) (partition : option Wrapped) (skipna : bool)
  : result Series :=
  _derived_agg_func self partition (AggName "min") None skipna None.

Definition median (self : Series) (partition : option Wrapped) (skipna : bool)
  : result Series :=
  e <- construct AggregateFunction
         "percentile_disc(0.5) WITHIN GROUP (ORDER BY {})" [expression self] ;;
  _derived_agg_func self partition (AggExpression e) None skipna None.

Definition mode (self : Series) (partition : option Wrapped) (skipna : bool)
  : result Series :=
  e <- construct AggregateFunction
         "mode() within group (order by {})" [expression self] ;;
  _derived_agg_func self partition (AggExpression e) None skipna None.

Definition nunique (self : Series) (partition : option Wrapped) (skipna : bool)
  : result Series :=
  partition <- match partition with
               | None => Ok None
               | Some _ =>
                   g <- _check_unwrap_groupby partition AnyGroupBy true ;;
                   Ok (Some (WGroupBy g))
               end ;;
  e <- construct AggregateFunction "count(distinct {})" [expression self] ;;
  _derived_agg_func self partition (AggExpression e) (Some "int64") skipna None.

(** [Series._check_window] and the window functions without further
    arguments. *)
Definition _check_window (window : option Wrapped) : result GroupBy :=
  _check_unwrap_groupby window OnlyWindow false.

Definition window_function (self : Series) (window : option Wrapped)
    (fmt : string) (args : list Expression) (dtype_arg : string)
  : result Series :=
  window <- _check_window window ;;
  e <- construct Plain fmt args ;;
  _derived_agg_func self (Some (WGroupBy window)) (AggExpression e)
    (Some dtype_arg) true None.

Definition window_row_number (self : Series) (window : option Wrapped) :=
  window_function self window "row_number()" [] "int64".
Definition window_rank (self : Series) (window : option Wrapped) :=
  window_function self window "rank()" [] "int64".
Definition window_dense_rank (self : Series) (window : option Wrapped) :=
  window_function self window "dense_rank()" [] "int64".
Definition window_percent_rank (self : Series) (window : option Wrapped) :=
  window_function self window "percent_rank()" [] "double precision".
Definition window_cume_dist (self : Series) (window : option Wrapped) :=
  window_function self window "cume_dist()" [] "double precision".
Definition window_first_value (self : Series) (window : option Wrapped) :=
  window_function self window "first_value({})" [expression self] (dtype self).
Definition window_last_value (self : Series) (window : option Wrapped) :=
  window_function self window "last_value({})" [expression self] (dtype self).

End SeriesOps.

(* ================================================================== *)
(** ** Structure of expressions *)

(** Induction over an expression and its elements. *)
Section ExpressionInduction.
Variable P : Expression -> Prop.
Variable Q : Element -> Prop.
Hypothesis HExpr : forall c d, Forall Q d -> P (Expr c d).
Hypothesis HTok : forall t, Q (Tok t).
Hypothesis HSub : forall e, P e -> Q (Sub e).

Fixpoint Expression_ind2 (e : Expression) : P e :=
  match e with
  | Expr c d =>
      HExpr c
        ((fix go (l : list Element) : Forall Q l :=
            match l with
            | [] => Forall_nil Q
            | x :: r => Forall_cons x (Element_ind2 x) (go r)
            end) d)
  end
with Element_ind2 (x : Element) : Q x :=
  match x with
  | Tok t => HTok t
  | Sub e => HSub (Expression_ind2 e)
  end.
End ExpressionInduction.

(** An expression made by the constructor has no element that is an
    Expression of the base class. *)
Fixpoint well_formed (e : Expression) : bool :=
  match e with
  | Expr _ d => forallb well_formed_item d
  end
with well_formed_item (x : Element) : bool :=
  match x with
  | Tok _ => true
  | Sub d => negb (is_plain d) && well_formed d
  end.

Definition is_column_reference (t : ExpressionToken) : bool :=
  match t with ColumnReferenceToken _ => true | _ => false end.

(** A ColumnReferenceToken anywhere in the tree. *)
Fixpoint has_column_reference (e : Expression) : bool :=
  match e with
  | Expr _ d => existsb has_column_reference_item d
  end
with has_column_reference_item (x : Element) : bool :=
  match x with
  | Tok t => is_column_reference t
  | Sub d => has_column_reference d
  end.

(** The tokens of the tree, left to right. *)
Fixpoint tokens (e : Expression) : list ExpressionToken :=
  match e with
  | Expr _ d => flat_map tokens_item d
  end
with tokens_item (x : Element) : list ExpressionToken :=
  match x with
  | Tok t => [t]
  | Sub d => tokens d
  end.


(* ================================================================== *)
(** ** Notions used to state the properties *)

Section Notions.
Context {U : SqlUtil}.

(** What resolution does to one token. *)
Definition resolve_token (table_name : option string) (t : ExpressionToken)
  : ExpressionToken :=
  match t with
  | ColumnReferenceToken column_name =>
      RawToken (table_prefix table_name ++ quote_identifier column_name)%string
  | _ => t
  end.

(** The SQL text of one token, with column references qualified by
    [table_name]. *)
Definition sql_token (table_name : option string) (t : ExpressionToken) : string :=
  match t with
  | RawToken r => escape_format_string r
  | AggFunctionRawToken r => escape_format_string r
  | ColumnReferenceToken column_name =>
      escape_format_string
        (table_prefix table_name ++ quote_identifier column_name)%string
  | ModelReferenceToken m => ("{" ++ refname m ++ "}")%string
  | StringValueToken v => escape_format_string (quote_string v)
  end.

(** The SQL text of an expression: the texts of its tokens, in order. *)
Fixpoint sql_text (table_name : option string) (e : Expression) : string :=
  match e with
  | Expr _ d => join (map (sql_item table_name) d)
  end
with sql_item (table_name : option string) (x : Element) : string :=
  match x with
  | Tok t => sql_token table_name t
  | Sub d => sql_text table_name d
  end.

End Notions.

(** Interleaving of the pieces of a template with the operands: the first
    piece, then each operand followed by the next piece. *)
Fixpoint weave_tail {A : Type} (app : A -> A -> A) (unit : A)
    (pieces operands : list A) : A :=
  match pieces, operands with
  | p :: ps, o :: os => app o (app p (weave_tail app unit ps os))
  | _, _ => unit
  end.

Definition weave {A : Type} (app : A -> A -> A) (unit : A)
    (pieces operands : list A) : A :=
  match pieces with
  | [] => unit
  | p :: ps => app p (weave_tail app unit ps operands)
  end.

Definition weave_str : list string -> list string -> string :=
  weave String.append EmptyString.

Definition weave_list {A : Type} : list (list A) -> list (list A) -> list A :=
  weave (@app A) [].

(** An operand's SQL as it appears in a constructed expression. *)
Definition parenthesized (arg_expr : Expression) (sql : string) : string :=
  if is_NonAtomic arg_expr then ("(" ++ sql ++ ")")%string else sql.

(** An operand's tokens as they appear in a constructed expression. *)
Definition parenthesized_tokens (arg_expr : Expression) : list ExpressionToken :=
  if is_NonAtomic arg_expr
  then RawToken "(" :: tokens arg_expr ++ [RawToken ")"]
  else tokens arg_expr.

(** The Raw token made of a piece of template text. *)
Definition text_tokens (sub_str : string) : list ExpressionToken :=
  if String.eqb sub_str EmptyString then [] else [RawToken sub_str].

(** A text without brace characters. *)
Fixpoint no_brace (s : string) : bool :=
  match s with
  | EmptyString => true
  | String c r => negb (Ascii.eqb c lbrace) && negb (Ascii.eqb c rbrace) && no_brace r
  end.

(* ------------------------------------------------------------------ *)
(** *** A model of the [sql_models] helpers *)

Definition dquote : ascii := ascii_of_nat 34.
Definition squote : ascii := ascii_of_nat 39.

(** [s.replace(c, c + c)] for a character [c]. *)
Fixpoint double_char (c : ascii) (s : string) : string :=
  match s with
  | EmptyString => EmptyString
  | String x r =>
      if Ascii.eqb x c then String x (String x (double_char c r))
      else String x (double_char c r)
  end.

(** Modelled from the spec: [sql_models.util.quote_identifier] is missing
    from the sources.  The identifier is put between double quotes (the
    docstring of [Expression.to_sql] shows the result), with the double
    quotes inside it doubled. *)
Definition quote_identifier_model (name : string) : string :=
  String dquote (double_char dquote name ++ String dquote EmptyString)%string.

(** Modelled from the spec: [sql_models.util.quote_string] is missing from
    the sources.  The value is put between single quotes, with the single
    quotes inside it doubled. *)
Definition quote_string_model (value : string) : string :=
  String squote (double_char squote value ++ String squote EmptyString)%string.

(** Modelled from the spec: [SqlModelSpec.escape_format_string] is missing
    from the sources.  It neutralizes the characters that are meaningful to
    the placeholder syntax of model references, the braces, by doubling
    them. *)
Definition escape_format_string_model (value : string) : string :=
  double_char rbrace (double_char lbrace value).

Definition sql_models : SqlUtil :=
  {| quote_identifier := quote_identifier_model;
     quote_string := quote_string_model;
     escape_format_string := escape_format_string_model |}.

(* ------------------------------------------------------------------ *)
(** *** Equality of element sequences *)

(** Python's [==] on two elements of [data]. *)
Definition Element_eqb (x y : Element) : bool :=
  match x, y with
  | Tok s, Tok t => ExpressionToken_eqb s t
  | Sub d, Sub d' => Expression_eqb d d'
  | _, _ => false
  end.

(** Python's [==] on two lists. *)
Fixpoint list_eqb {A : Type} (eqb : A -> A -> bool) (l1 l2 : list A) : bool :=
  match l1, l2 with
  | [], [] => true
  | x :: l1', y :: l2' => eqb x y && list_eqb eqb l1' l2'
  | _, _ => false
  end.

(** The expression with the class of every node forgotten. *)
Fixpoint erase_classes (e : Expression) : Expression :=
  match e with
  | Expr _ d => Expr Plain (map erase_item d)
  end
with erase_item (x : Element) : Element :=
  match x with
  | Tok t => Tok t
  | Sub d => Sub (erase_classes d)
  end.

(* ------------------------------------------------------------------ *)
(** *** A model of the rest of bach, for the examples *)

(** Modelled from the spec: the registry of Series classes is missing from
    the sources.  The dtypes named in series.py are registered, and
    [boolean] is an alias of [bool]. *)
Definition get_series_type_from_dtype_model (d : string) : result string :=
  if existsb (String.eqb d) ["bool"; "int64"; "float64"; "string"]
  then Ok d
  else if String.eqb d "boolean" then Ok "bool"
  else Raise UnknownDtype.

(** Modelled from the spec: [DataFrame.materialize] is missing from the
    sources.  The compiled unit of the materialized frame is a new unit,
    named here after the unit and the Series it comes from. *)
Definition materialize_base_node_model (s : Series) : SqlModel :=
  {| hash := (hash (base_node s) ++ "_" ++ name s)%string |}.

(** Modelled from the spec: [GroupBy.__eq__] is missing from the sources.
    Two partitions are equal when they are of the same kind, over the same
    index names. *)
Definition GroupBy_eqb_model (a b : GroupBy) : bool :=
  Bool.eqb (is_Window a) (is_Window b)
  && list_eqb String.eqb (map fst (gb_index a)) (map fst (gb_index b))
  && Z.eqb (min_values a) (min_values b).

(** Modelled from the spec: [Window.get_window_expression] is missing from
    the sources.  It wraps the expression with the framing syntax of the
    window, in an expression of the windowed class. *)
Definition get_window_expression_model (w : GroupBy) (e : Expression) : Expression :=
  new_Expression Windowed [Sub e; Tok (RawToken " over ()")].

Definition bach_model : BachEnv :=
  {| get_series_type_from_dtype := get_series_type_from_dtype_model;
     materialize_base_node := materialize_base_node_model;
     GroupBy_eqb := GroupBy_eqb_model;
     get_window_expression := get_window_expression_model |}.

(** A column of a frame, as [get_fake_df] of the tests makes it. *)
Definition column (base : string) (dt : string) (column_name : string) : Series :=
  mkSeries dt "engine" {| hash := base |} [] column_name
    (column_reference Plain column_name) None None.

(* ------------------------------------------------------------------ *)
(** *** Shapes of constructed expressions *)

(** The elements put together by the loop of [construct]. *)
Definition construct_elements (pieces : list string) (args : list Expression)
  : list Element :=
  weave_list (map text_elements pieces) (map operand_elements args).

Section SubqueryShape.
Context {B : BachEnv}.

(** The elements of the expression made by [as_independent_subquery]. *)
Definition subquery_elements (operation : option string) (series : Series)
  : list Element :=
  [Tok (RawToken (match operation with
                  | Some op => (op ++ " (SELECT ")%string
                  | None => "(SELECT "
                  end));
   Tok (ColumnReferenceToken (name series));
   Tok (RawToken " FROM ");
   Tok (ModelReferenceToken (materialize_base_node series));
   Tok (RawToken ")")].

Definition subquery_operations : list (option string) :=
  [None; Some "exists"; Some "any"; Some "all"; Some "in"].

(** The right-hand side is not usable as it is: its expression is neither
    constant nor an independent subquery, and its base_node or group_by
    differs from the left-hand side's. *)
Definition other_context (self other : Series) : Prop :=
  is_constant (expression other) = false
  /\ is_independent_subquery (expression other) = false
  /\ (SqlModel_eqb (base_node self) (base_node other) = false
      \/ option_eqb GroupBy_eqb (group_by self) (group_by other) = false).

End SubqueryShape.

(* ================================================================== *)
(** ** Further operations of expression.py *)

(** [rv[key] = value] on a dict: the value of an existing key is replaced
    in place, a new key goes last. *)
Fixpoint dict_set {V : Type} (rv : list (string * V)) (key : string) (value : V)
  : list (string * V) :=
  match rv with
  | [] => [(key, value)]
  | (k, v) :: r =>
      if String.eqb k key then (k, value) :: r
      else (k, v) :: dict_set r key value
  end.

(** [rv.update(other)] *)
Definition dict_update {V : Type} (rv other : list (string * V))
  : list (string * V) :=
  fold_left (fun acc kv => dict_set acc (fst kv) (snd kv)) other rv.

(** [Expression.get_references] *)
Fixpoint get_references (e : Expression) : list (string * SqlModel) :=
  match e with
  | Expr _ d =>
      fold_left
        (fun rv data_item =>
           match data_item with
           | Sub d' => dict_update rv (get_references d')
           | Tok (ModelReferenceToken m) => dict_set rv (refname m) m
           | Tok _ => rv
           end) d []
  end.

(** The models referenced by a token sequence, keyed by reference name,
    each key once, the last model given for it. *)
Definition references_of_tokens (ts : list ExpressionToken)
  : list (string * SqlModel) :=
  fold_left
    (fun rv t => match t with
                 | ModelReferenceToken m => dict_set rv (refname m) m
                 | _ => rv
                 end) ts [].

Definition is_agg_function_raw (t : ExpressionToken) : bool :=
  match t with AggFunctionRawToken _ => true | _ => false end.

(** An expression of the AggregateFunction class anywhere in the tree,
    the root included. *)
Fixpoint has_AggregateFunction_class (e : Expression) : bool :=
  match e with
  | Expr AggregateFunction _ => true
  | Expr _ d => existsb has_AggregateFunction_class_item d
  end
with has_AggregateFunction_class_item (x : Element) : bool :=
  match x with
  | Tok _ => false
  | Sub d => has_AggregateFunction_class d
  end.

(** The child Expressions that an operand brings into a constructed
    expression: the operand itself, or its own children when it is of the
    base class and so spliced. *)
Definition operand_children (arg_expr : Expression) : list Expression :=
  if is_plain arg_expr then sub_expressions (data arg_expr) else [arg_expr].

(** A dict of references agrees with a token sequence: each key once, each
    entry a model of the sequence under its reference name, and every
    model of the sequence has its key. *)
Definition references_agree (rv : list (string * SqlModel))
    (ts : list ExpressionToken) : Prop :=
  NoDup (map fst rv)
  /\ (forall k m, In (k, m) rv ->
        refname m = k /\ In (ModelReferenceToken m) ts)
  /\ (forall m, In (ModelReferenceToken m) ts -> In (refname m) (map fst rv)).

(* ================================================================== *)
(** ** Further operations of series.py *)

Section MoreSeriesOps.
Context {U : SqlUtil} {B : BachEnv}.

(** [Series.sort_values] *)
Definition sort_values (self : Series) (ascending : bool) : result Series :=
  if match sorted_ascending self with
     | Some b => Bool.eqb b ascending
     | None => false
     end
  then Ok self
  else copy_override self None None None None None None None (Some ascending).

(** [Series.get_column_expression] *)
Definition get_column_expression (self : Series) (table_alias : option string)
  : result Expression :=
  let expression := resolve_column_references (expression self) table_alias in
  let quoted_column_name := quote_identifier (name self) in
  sql <- to_sql expression None ;;
  if String.eqb sql quoted_column_name then Ok expression
  else construct Plain "{} as {}" [expression; raw Plain quoted_column_name].

(** [Series.isnull] *)
Definition isnull (self : Series) : result Series :=
  expression <- construct NonAtomic "{} is null" [expression self] ;;
  copy_override self (Some "bool") None None None None (Some expression)
    None None.

(** [Series.notnull] *)
Definition notnull (self : Series) : result Series :=
  expression <- construct NonAtomic "{} is not null" [expression self] ;;
  copy_override self (Some "bool") None None None None (Some expression)
    None None.

(** [Series.exists]; the name [exists] is reserved in Rocq. *)
Definition exists_ (self : Series) : result Series :=
  s <- as_independent_subquery self (Some "exists") (Some "bool") ;;
  copy_override s None None None None None
    (Some (new_Expression_of SingleValue (expression s))) None None.

(** [Series.any_value] *)
Definition any_value (self : Series) : result Series :=
  as_independent_subquery self (Some "any") None.

(** [Series.all_values] *)
Definition all_values (self : Series) : result Series :=
  as_independent_subquery self (Some "all") None.

(** [Series.isin] *)
Definition isin (self other : Series) : result Series :=
  sub <- as_independent_subquery other (Some "in") None ;;
  in_expr <- construct Plain "{} {}" [expression self; expression sub] ;;
  copy_override self (Some "boolean") None None None None (Some in_expr)
    None None.


End MoreSeriesOps.

(** The partition that [_check_unwrap_groupby] looks at: the group_by of a
    DataFrame, or the partition itself. *)
Definition unwrapped (wrapped : option Wrapped) : option GroupBy :=
  match wrapped with
  | Some (WDataFrame g) => g
  | Some (WGroupBy g) => Some g
  | None => None
  end.
Lemma forallb_flat_map {A B : Type} (p : B -> bool) (f : A -> list B) (l : list A) :
  forallb p (flat_map f l) = forallb (fun x => forallb p (f x)) l.
Proof.
  induction l as [|x l IH]; simpl; [reflexivity|].
  now rewrite forallb_app, IH.
Qed.

Lemma existsb_flat_map {A B : Type} (p : B -> bool) (f : A -> list B) (l : list A) :
  existsb p (flat_map f l) = existsb (fun x => existsb p (f x)) l.
Proof.
  induction l as [|x l IH]; simpl; [reflexivity|].
  now rewrite existsb_app, IH.
Qed.

Lemma flat_map_flat_map {A B C : Type} (f : A -> list B) (g : B -> list C) (l : list A) :
  flat_map g (flat_map f l) = flat_map (fun x => flat_map g (f x)) l.
Proof.
  induction l as [|x l IH]; simpl; [reflexivity|].
  now rewrite flat_map_app, IH.
Qed.

Lemma flat_map_singleton {A : Type} (f : A -> list A) (l : list A) :
  Forall (fun x => f x = [x]) l -> flat_map f l = l.
Proof.
  induction 1 as [|x l Hx _ IH]; simpl; [reflexivity|].
  now rewrite Hx, IH.
Qed.

Lemma splice_well_formed (x : Element) :
  well_formed_item x = true -> splice x = [x].
Proof.
  destruct x as [t|[c d]]; simpl; [reflexivity|].
  destruct c; simpl; intros H; try reflexivity; discriminate.
Qed.

Lemma tokens_splice (x : Element) :
  flat_map tokens_item (splice x) = tokens_item x.
Proof.
  destruct x as [t|[c d]]; simpl; [reflexivity|].
  destruct c; simpl; rewrite ?app_nil_r; reflexivity.
Qed.

Lemma tokens_new_Expression (c : ExprClass) (l : list Element) :
  tokens (new_Expression c l) = flat_map tokens_item l.
Proof.
  unfold new_Expression; simpl.
  rewrite flat_map_flat_map.
  apply flat_map_ext; intros x; apply tokens_splice.
Qed.

(** The constructor gives a well-formed expression from well-formed
    elements, whatever their classes. *)
Lemma new_Expression_well_formed (c : ExprClass) (l : list Element) :
  Forall (fun x => match x with Tok _ => True | Sub d => well_formed d = true end) l ->
  well_formed (new_Expression c l) = true.
Proof.
  intros H. unfold new_Expression; simpl.
  rewrite forallb_flat_map. apply forallb_forall.
  rewrite Forall_forall in H. intros x Hx. specialize (H x Hx).
  destruct x as [t|[k d]]; simpl; [reflexivity|].
  destruct k; simpl in *; rewrite ?H; try reflexivity; exact H.
Qed.

Lemma new_Expression_id (c : ExprClass) (d : list Element) :
  well_formed (Expr c d) = true -> new_Expression c d = Expr c d.
Proof.
  simpl; intros H. unfold new_Expression. f_equal.
  apply flat_map_singleton. rewrite forallb_forall in H.
  apply Forall_forall; intros x Hx. apply splice_well_formed; auto.
Qed.

(* ================================================================== *)
(** ** Column reference resolution *)

Section Resolution.
Context {U : SqlUtil}.

Lemma resolve_column_references_eq (c : ExprClass) (d : list Element)
    (table_name : option string) :
  resolve_column_references (Expr c d) table_name
  = new_Expression c (map (fun x => resolve_item x table_name) d).
Proof. reflexivity. Qed.

Lemma resolve_item_Tok (t : ExpressionToken) (table_name : option string) :
  resolve_item (Tok t) table_name = Tok (resolve_token table_name t).
Proof. destruct t; reflexivity. Qed.

Lemma resolve_cls (e : Expression) (table_name : option string) :
  cls_of (resolve_column_references e table_name) = cls_of e.
Proof. destruct e; reflexivity. Qed.

Lemma resolve_well_formed (e : Expression) :
  forall table_name, well_formed (resolve_column_references e table_name) = true.
Proof.
  induction e using Expression_ind2
    with (Q := fun x => forall table_name,
                 match resolve_item x table_name with
                 | Tok _ => True
                 | Sub d => well_formed d = true
                 end).
  - intros table_name. rewrite resolve_column_references_eq.
    apply new_Expression_well_formed.
    apply Forall_map. eapply Forall_impl; [|exact H].
    intros x Hx; apply Hx.
  - intros table_name. rewrite resolve_item_Tok. exact I.
  - intros table_name. simpl. apply IHe.
Qed.

Lemma has_column_reference_splice (x : Element) :
  existsb has_column_reference_item (splice x) = has_column_reference_item x.
Proof.
  destruct x as [t|[c d]]; simpl; [apply orb_false_r|].
  destruct c; simpl; rewrite ?orb_false_r; reflexivity.
Qed.

Lemma has_column_reference_new (c : ExprClass) (l : list Element) :
  has_column_reference (new_Expression c l) = existsb has_column_reference_item l.
Proof.
  unfold new_Expression; simpl. rewrite existsb_flat_map.
  induction l as [|x l IH]; simpl; [reflexivity|].
  now rewrite has_column_reference_splice, IH.
Qed.

Lemma existsb_false_Forall {A : Type} (p : A -> bool) (l : list A) :
  Forall (fun x => p x = false) l -> existsb p l = false.
Proof.
  induction 1 as [|x l Hx _ IH]; simpl; [reflexivity|]. now rewrite Hx, IH.
Qed.

Lemma resolve_no_column_reference (e : Expression) :
  forall table_name,
    has_column_reference (resolve_column_references e table_name) = false.
Proof.
  induction e using Expression_ind2
    with (Q := fun x => forall table_name,
                 has_column_reference_item (resolve_item x table_name) = false).
  - intros table_name. rewrite resolve_column_references_eq, has_column_reference_new.
    apply existsb_false_Forall, Forall_map.
    eapply Forall_impl; [|exact H]. intros x Hx; apply Hx.
  - intros table_name. destruct t; reflexivity.
  - intros table_name. simpl. apply IHe.
Qed.

(** On a well-formed expression without column references, resolution
    changes nothing. *)
Lemma resolve_fixpoint (e : Expression) :
  well_formed e = true -> has_column_reference e = false ->
  forall table_name, resolve_column_references e table_name = e.
Proof.
  induction e using Expression_ind2
    with (Q := fun x => well_formed_item x = true ->
                        has_column_reference_item x = false ->
                        forall table_name, resolve_item x table_name = x).
  - intros Hwf Hcr table_name. rewrite resolve_column_references_eq.
    assert (Hmap : map (fun x => resolve_item x table_name) d = d).
    { simpl in Hwf, Hcr. rewrite forallb_forall in Hwf.
      rewrite <- (map_id d) at 2. apply map_ext_in. intros x Hx.
      rewrite Forall_forall in H. apply H; auto.
      destruct (has_column_reference_item x) eqn:E; [|reflexivity].
      rewrite <- Hcr. symmetry. apply existsb_exists. exists x; auto. }
    rewrite Hmap. apply new_Expression_id, Hwf.
  - intros _ Hcr table_name. destruct t; simpl in *; try reflexivity; discriminate.
  - intros Hwf Hcr table_name. simpl in *.
    apply andb_true_iff in Hwf as [_ Hwf]. now rewrite IHe.
Qed.

Lemma tokens_resolve (e : Expression) :
  forall table_name,
    tokens (resolve_column_references e table_name)
    = map (resolve_token table_name) (tokens e).
Proof.
  induction e using Expression_ind2
    with (Q := fun x => forall table_name,
                 tokens_item (resolve_item x table_name)
                 = map (resolve_token table_name) (tokens_item x)).
  - intros table_name. rewrite resolve_column_references_eq, tokens_new_Expression.
    simpl. induction H as [|x l Hx _ IH]; simpl; [reflexivity|].
    now rewrite map_app, Hx, IH.
  - intros table_name. rewrite resolve_item_Tok. reflexivity.
  - intros table_name. simpl. apply IHe.
Qed.

(** C4: resolve_column_references is idempotent.  After one application no
    ColumnReferenceToken is left anywhere in the tree; a second
    application, with any table name, returns the same expression (so the
    same element sequence); and the tokens of the result are those of the
    argument in the same order, each token other than a ColumnReferenceToken
    unchanged. *)
Theorem resolve_column_references_idempotent :
  forall (e : Expression) (table_name table_name' : option string),
    has_column_reference (resolve_column_references e table_name) = false
    /\ resolve_column_references (resolve_column_references e table_name) table_name'
       = resolve_column_references e table_name
    /\ data (resolve_column_references (resolve_column_references e table_name)
               table_name')
       = data (resolve_column_references e table_name)
    /\ tokens (resolve_column_references e table_name)
       = map (resolve_token table_name) (tokens e)
    /\ (forall t, is_column_reference t = false -> resolve_token table_name t = t)
    /\ (forall t, is_column_reference t = false ->
                  resolve_item (Tok t) table_name = Tok t).
Proof.
  intros e table_name table_name'.
  assert (Hid : resolve_column_references
                  (resolve_column_references e table_name) table_name'
                = resolve_column_references e table_name).
  { apply resolve_fixpoint.
    - apply resolve_well_formed.
    - apply resolve_no_column_reference. }
  repeat split.
  - apply resolve_no_column_reference.
  - exact Hid.
  - now rewrite Hid.
  - apply tokens_resolve.
  - intros t Ht; destruct t; simpl in *; try reflexivity; discriminate.
  - intros t Ht; destruct t; simpl in *; try reflexivity; discriminate.
Qed.

End Resolution.

(** An instance of C4: a nested expression with two column references,
    resolved against a table and then resolved again. *)
Lemma resolve_column_references_idempotent_witness :
  let e := new_Expression NonAtomic
             [Sub (column_reference SingleValue "a"); Tok (RawToken " + ");
              Sub (column_reference Plain "b")] in
  has_column_reference e = true
  /\ has_column_reference (@resolve_column_references sql_models e (Some "t")) = false
  /\ @resolve_column_references sql_models
       (@resolve_column_references sql_models e (Some "t")) None
     = @resolve_column_references sql_models e (Some "t")
  /\ @resolve_token sql_models (Some "t") (RawToken " + ") = RawToken " + ".
Proof.
  intros e.
  destruct (@resolve_column_references_idempotent sql_models e (Some "t") None)
    as [H1 [H2 [_ [_ [H5 _]]]]].
  split; [reflexivity|]. split; [exact H1|]. split; [exact H2|].
  apply H5. reflexivity.
Defined.

(* ================================================================== *)
(** ** Rendering *)

Section RenderingFacts.
Context {U : SqlUtil}.

Lemma join_app (l1 l2 : list string) :
  join (l1 ++ l2) = (join l1 ++ join l2)%string.
Proof.
  induction l1 as [|s l1 IH]; simpl; [reflexivity|].
  unfold join in *; simpl. rewrite IH.
  clear IH. induction s as [|c s IHs]; simpl; [reflexivity|]. now rewrite IHs.
Qed.

Lemma string_app_nil_r (s : string) : (s ++ EmptyString)%string = s.
Proof. induction s as [|c s IH]; simpl; [reflexivity|]. now rewrite IH. Qed.

Lemma string_app_assoc (a b c : string) :
  ((a ++ b) ++ c)%string = (a ++ (b ++ c))%string.
Proof. induction a as [|x a IH]; simpl; [reflexivity|]. now rewrite IH. Qed.

Lemma sql_text_eq (table_name : option string) (c : ExprClass) (d : list Element) :
  sql_text table_name (Expr c d) = join (map (sql_item table_name) d).
Proof. reflexivity. Qed.

Lemma sql_splice (table_name : option string) (x : Element) :
  join (map (sql_item table_name) (splice x)) = sql_item table_name x.
Proof.
  destruct x as [t|[c d]]; simpl; [apply string_app_nil_r|].
  destruct c; simpl; rewrite ?string_app_nil_r; reflexivity.
Qed.

(** Flattening by the constructor does not change the SQL text. *)
Lemma sql_text_new_Expression (table_name : option string) (c : ExprClass)
    (l : list Element) :
  sql_text table_name (new_Expression c l) = join (map (sql_item table_name) l).
Proof.
  unfold new_Expression. rewrite sql_text_eq.
  induction l as [|x l IH]; simpl; [reflexivity|].
  rewrite map_app, join_app, IH, sql_splice. reflexivity.
Qed.

Lemma sql_text_resolve (e : Expression) :
  forall table_name table_name',
    sql_text table_name' (resolve_column_references e table_name)
    = sql_text table_name e.
Proof.
  induction e using Expression_ind2
    with (Q := fun x => forall table_name table_name',
                 sql_item table_name' (resolve_item x table_name)
                 = sql_item table_name x).
  - intros table_name table_name'.
    rewrite resolve_column_references_eq, sql_text_new_Expression, sql_text_eq.
    rewrite map_map. f_equal. apply map_ext_in. intros x Hx.
    rewrite Forall_forall in H. now apply H.
  - intros table_name table_name'. destruct t; reflexivity.
  - intros table_name table_name'. simpl. apply IHe.
Qed.

Lemma depth_eq (c : ExprClass) (d : list Element) :
  depth (Expr c d) = S (list_max (map depth_item d)).
Proof. reflexivity. Qed.

Lemma depth_item_in (c : ExprClass) (d : list Element) (x : Element) :
  In x d -> depth_item x < depth (Expr c d).
Proof.
  intros Hx. rewrite depth_eq.
  assert (H : list_max (map depth_item d) <= list_max (map depth_item d)) by lia.
  apply list_max_le in H. rewrite Forall_forall in H.
  specialize (H (depth_item x) (in_map depth_item d x Hx)). lia.
Qed.

Lemma depth_new_Expression (c : ExprClass) (l : list Element) :
  depth (new_Expression c l) <= S (list_max (map depth_item l)).
Proof.
  unfold new_Expression. rewrite depth_eq. apply le_n_S.
  apply list_max_le, Forall_forall. intros n Hn.
  apply in_map_iff in Hn as [y [<- Hy]].
  apply in_flat_map in Hy as [x [Hx Hy]].
  assert (Hle : depth_item y <= depth_item x).
  { destruct x as [t|[k d]]; simpl in Hy.
    - destruct Hy as [<-|[]]; lia.
    - destruct k; simpl in Hy;
        try (destruct Hy as [<-|[]]; lia).
      apply (depth_item_in Plain) in Hy. simpl in *. lia. }
  assert (H : list_max (map depth_item l) <= list_max (map depth_item l)) by lia.
  apply list_max_le in H. rewrite Forall_forall in H.
  specialize (H (depth_item x) (in_map depth_item l x Hx)). lia.
Qed.

Lemma depth_resolve (e : Expression) :
  forall table_name, depth (resolve_column_references e table_name) <= depth e.
Proof.
  induction e using Expression_ind2
    with (Q := fun x => forall table_name,
                 depth_item (resolve_item x table_name) <= depth_item x).
  - intros table_name. rewrite resolve_column_references_eq.
    etransitivity; [apply depth_new_Expression|].
    rewrite depth_eq. apply le_n_S.
    apply list_max_le, Forall_forall. intros n Hn.
    rewrite map_map in Hn. apply in_map_iff in Hn as [x [<- Hx]].
    rewrite Forall_forall in H. specialize (H x Hx table_name).
    assert (H' : list_max (map depth_item d) <= list_max (map depth_item d)) by lia.
    apply list_max_le in H'. rewrite Forall_forall in H'.
    specialize (H' (depth_item x) (in_map depth_item d x Hx)). lia.
  - intros table_name. rewrite resolve_item_Tok. simpl. lia.
  - intros table_name. simpl. apply IHe.
Qed.

(** The loop of [to_sql] on elements without a column reference token. *)
Lemma render_items_ok (rec : Expression -> result string) (items : list Element) :
  Forall (fun x => match x with
                   | Tok t => is_column_reference t = false
                   | Sub d => rec d = Ok (sql_text None d)
                   end) items ->
  render_items rec items = Ok (map (sql_item None) items).
Proof.
  induction 1 as [|x l Hx _ IH]; simpl; [reflexivity|].
  rewrite IH. destruct x as [t|d]; simpl.
  - destruct t; simpl in *; try reflexivity; discriminate.
  - rewrite Hx. reflexivity.
Qed.

(** With enough fuel, [to_sql] returns the SQL text. *)
Lemma to_sql_fuel_ok (fuel : nat) :
  forall (e : Expression) (table_name : option string),
    depth e < fuel ->
    to_sql_fuel fuel e table_name = Ok (sql_text table_name e).
Proof.
  induction fuel as [|fuel IH]; intros e table_name Hd; [lia|].
  simpl.
  pose proof (depth_resolve e table_name) as Hdr.
  pose proof (resolve_no_column_reference e table_name) as Hcr.
  pose proof (sql_text_resolve e table_name None) as Hsql.
  destruct (resolve_column_references e table_name) as [c d] eqn:E.
  simpl data. rewrite (@render_items_ok _ d).
  - simpl. rewrite <- Hsql. reflexivity.
  - apply Forall_forall. intros x Hx.
    destruct x as [t|d'].
    + simpl in Hcr. destruct (is_column_reference t) eqn:Et; [|reflexivity].
      rewrite <- Hcr. symmetry. apply existsb_exists. exists (Tok t); auto.
    + apply IH. apply (depth_item_in c) in Hx. simpl in Hx. simpl in Hdr. lia.
Qed.

(** [to_sql] always returns, and returns the SQL text of the expression. *)
Lemma to_sql_ok (e : Expression) (table_name : option string) :
  to_sql e table_name = Ok (sql_text table_name e).
Proof. unfold to_sql. apply to_sql_fuel_ok. lia. Qed.

Lemma to_sql_fuel_stable (fuel : nat) (e : Expression) (table_name : option string) :
  depth e < fuel -> to_sql_fuel fuel e table_name = to_sql e table_name.
Proof. intros H. rewrite to_sql_ok. now apply to_sql_fuel_ok. Qed.

End RenderingFacts.

(* ================================================================== *)
(** ** Templated construction *)

Lemma split_fmt_nonempty (s : string) : split_fmt s <> [].
Proof.
  induction s as [|c r IH]; simpl; [discriminate|].
  destruct r as [|c' r'].
  - simpl. discriminate.
  - destruct (Ascii.eqb c lbrace && Ascii.eqb c' rbrace)%bool; [discriminate|].
    destruct (split_fmt (String c' r')); discriminate.
Qed.

Lemma construct_loop_tail (args : list Expression) :
  forall (rest : list string) (i : nat),
    length (skipn i args) = length rest ->
    construct_loop (S i) rest args
    = Ok (weave_tail (@app Element) [] (map text_elements rest)
            (map operand_elements (skipn i args))).
Proof.
  induction rest as [|p rest IH]; intros i Hlen; simpl.
  - destruct (map operand_elements (skipn i args)); reflexivity.
  - destruct (skipn i args) as [|a tl] eqn:E; [discriminate|].
    assert (Hnth : nth_error args i = Some a).
    { rewrite <- (firstn_skipn i args) at 1.
      assert (Hi : i <= length args).
      { destruct (Nat.le_gt_cases i (length args)) as [H|H]; [exact H|].
        rewrite skipn_all2 in E by lia. discriminate. }
      rewrite nth_error_app2; rewrite length_firstn, Nat.min_l; auto.
      rewrite Nat.sub_diag, E. reflexivity. }
    rewrite Hnth. simpl.
    assert (Hskip : skipn (S i) args = tl).
    { replace (S i) with (1 + i) by lia.
      rewrite <- skipn_skipn, E. reflexivity. }
    rewrite IH; rewrite Hskip; [reflexivity|].
    simpl in Hlen. lia.
Qed.

Lemma construct_loop_ok (pieces : list string) (args : list Expression) :
  pieces <> [] -> length args = length pieces - 1 ->
  construct_loop 0 pieces args = Ok (construct_elements pieces args).
Proof.
  destruct pieces as [|p rest]; [congruence|]. intros _ Hlen.
  simpl in Hlen. rewrite Nat.sub_0_r in Hlen.
  change (construct_loop 0 (p :: rest) args)
    with (tl <- construct_loop 1 rest args ;; Ok ([] ++ text_elements p ++ tl)).
  rewrite construct_loop_tail by (simpl; exact Hlen).
  reflexivity.
Qed.

(** [construct] succeeds exactly when the operands match the markers. *)
Lemma construct_ok (cls : ExprClass) (fmt : string) (args : list Expression) :
  length args = length (split_fmt fmt) - 1 ->
  construct cls fmt args
  = Ok (new_Expression cls (construct_elements (split_fmt fmt) args)).
Proof.
  intros Hlen. unfold construct.
  rewrite Hlen, Nat.eqb_refl. simpl.
  rewrite construct_loop_ok; auto using split_fmt_nonempty.
Qed.

Lemma construct_mismatch (cls : ExprClass) (fmt : string) (args : list Expression) :
  length args <> length (split_fmt fmt) - 1 ->
  construct cls fmt args = Raise PlaceholderCountMismatch.
Proof.
  intros Hlen. unfold construct.
  apply Nat.eqb_neq in Hlen. rewrite Hlen. reflexivity.
Qed.

(** A homomorphism maps a weave to the weave of the images. *)
Lemma weave_tail_hom {A B : Type} (appA : A -> A -> A) (uA : A)
    (appB : B -> B -> B) (uB : B) (h : A -> B) :
  h uA = uB -> (forall x y, h (appA x y) = appB (h x) (h y)) ->
  forall pieces operands,
    h (weave_tail appA uA pieces operands)
    = weave_tail appB uB (map h pieces) (map h operands).
Proof.
  intros Hu Happ. induction pieces as [|p ps IH]; intros [|o os]; simpl; auto.
  now rewrite !Happ, IH.
Qed.

Lemma weave_hom {A B : Type} (appA : A -> A -> A) (uA : A)
    (appB : B -> B -> B) (uB : B) (h : A -> B) :
  h uA = uB -> (forall x y, h (appA x y) = appB (h x) (h y)) ->
  forall pieces operands,
    h (weave appA uA pieces operands)
    = weave appB uB (map h pieces) (map h operands).
Proof.
  intros Hu Happ [|p ps] operands; simpl; auto.
  rewrite Happ. f_equal. now apply weave_tail_hom.
Qed.

(** [split_fmt] cuts at the markers only: joining the pieces with the
    marker gives the template back. *)
Lemma split_fmt_join_bounded (n : nat) :
  forall s, String.length s <= n -> String.concat "{}" (split_fmt s) = s.
Proof.
  induction n as [|n IH]; intros s Hn.
  - destruct s; [reflexivity|simpl in Hn; lia].
  - destruct s as [|c rest]; [reflexivity|].
    simpl in Hn. assert (Hrest : String.length rest <= n) by lia.
    assert (Hkeep :
      String.concat "{}"
        match split_fmt rest with
        | h :: t => String c h :: t
        | [] => [String c EmptyString]
        end = String c rest).
    { pose proof (IH rest Hrest) as Hr.
      destruct (split_fmt rest) as [|h t] eqn:E.
      - now apply split_fmt_nonempty in E.
      - destruct t; simpl in *; now rewrite Hr. }
    destruct rest as [|c' rest'].
    + exact Hkeep.
    + change (split_fmt (String c (String c' rest')))
        with (if (Ascii.eqb c lbrace && Ascii.eqb c' rbrace)%bool
              then EmptyString :: split_fmt rest'
              else match split_fmt (String c' rest') with
                   | h :: t => String c h :: t
                   | [] => [String c EmptyString]
                   end).
      destruct (Ascii.eqb c lbrace && Ascii.eqb c' rbrace)%bool eqn:Em.
      * apply andb_true_iff in Em as [Hc Hc'].
        apply Ascii.eqb_eq in Hc, Hc'. subst c c'.
        simpl in Hrest.
        assert (Hr : String.concat "{}" (split_fmt rest') = rest') by (apply IH; lia).
        destruct (split_fmt rest') as [|h t] eqn:E.
        -- now apply split_fmt_nonempty in E.
        -- simpl in *. now rewrite Hr.
      * exact Hkeep.
Qed.

Lemma split_fmt_join (s : string) : String.concat "{}" (split_fmt s) = s.
Proof. apply split_fmt_join_bounded with (n := String.length s). lia. Qed.

Section ConstructFacts.
Context {U : SqlUtil}.

(** SQL text of a constructed expression, for any escaping function. *)
Lemma sql_text_construct_elements (table_name : option string) (cls : ExprClass)
    (pieces : list string) (args : list Expression) :
  sql_text table_name (new_Expression cls (construct_elements pieces args))
  = weave_str
      (map (fun p => join (map (sql_item table_name) (text_elements p))) pieces)
      (map (fun a => join (map (sql_item table_name) (operand_elements a))) args).
Proof.
  rewrite sql_text_new_Expression. unfold construct_elements, weave_list, weave_str.
  rewrite (@weave_hom _ _ (@app Element) [] String.append EmptyString
             (fun l => join (map (sql_item table_name) l))).
  - now rewrite !map_map.
  - reflexivity.
  - intros x y. now rewrite map_app, join_app.
Qed.

Lemma tokens_construct_elements (cls : ExprClass) (pieces : list string)
    (args : list Expression) :
  tokens (new_Expression cls (construct_elements pieces args))
  = weave_list (map text_tokens pieces) (map parenthesized_tokens args).
Proof.
  rewrite tokens_new_Expression. unfold construct_elements, weave_list.
  rewrite (@weave_hom _ _ (@app Element) [] (@app ExpressionToken) []
             (flat_map tokens_item)).
  - rewrite !map_map. f_equal.
    + apply map_ext. intros p. unfold text_elements, text_tokens.
      destruct (String.eqb p EmptyString); reflexivity.
    + apply map_ext. intros a. unfold operand_elements, parenthesized_tokens.
      destruct (is_NonAtomic a); simpl; rewrite ?app_nil_r; reflexivity.
  - reflexivity.
  - intros x y. apply flat_map_app.
Qed.

End ConstructFacts.

Lemma escape_no_brace (s : string) :
  no_brace s = true -> escape_format_string_model s = s.
Proof.
  unfold escape_format_string_model.
  induction s as [|x r IH]; simpl; [reflexivity|].
  intros H. apply andb_true_iff in H as [H Hr].
  apply andb_true_iff in H as [Hl Hrb].
  apply negb_true_iff in Hl, Hrb.
  rewrite Hl. simpl. rewrite Hrb, IH; auto.
Qed.

Lemma map_escape_no_brace (l : list string) :
  forallb no_brace l = true -> map escape_format_string_model l = l.
Proof.
  induction l as [|s l IH]; simpl; [reflexivity|].
  intros H. apply andb_true_iff in H as [Hs Hl].
  now rewrite escape_no_brace, IH.
Qed.

(** C1 (amended): for a template and as many operands as it has markers,
    [construct] returns an expression of the requested class whose tokens
    are the non-empty pieces of template text, as Raw tokens, with the
    operands' tokens substituted in order, an operand of the NonAtomic class
    between the Raw tokens "(" and ")".  Its SQL is the concatenation of
    the pieces of template text, each with its brace characters doubled by
    the placeholder escaping, and of the SQL of the operands, a NonAtomic
    operand between literal parentheses; for a template text without brace
    characters it is the concatenation of the template text itself with the
    SQL of the operands. *)
Theorem construct_substitutes_operands :
  forall (cls : ExprClass) (fmt : string) (args : list Expression)
         (table_name : option string),
    length args = length (split_fmt fmt) - 1 ->
    exists e,
      construct cls fmt args = Ok e
      /\ cls_of e = cls
      /\ tokens e
         = weave_list (map text_tokens (split_fmt fmt))
             (map parenthesized_tokens args)
      /\ (forall a, @to_sql sql_models a table_name
                    = Ok (@sql_text sql_models table_name a))
      /\ @to_sql sql_models e table_name
         = Ok (weave_str (map escape_format_string_model (split_fmt fmt))
                 (map (fun a => parenthesized a (@sql_text sql_models table_name a))
                    args))
      /\ (forallb no_brace (split_fmt fmt) = true ->
          @to_sql sql_models e table_name
          = Ok (weave_str (split_fmt fmt)
                  (map (fun a => parenthesized a (@sql_text sql_models table_name a))
                     args))).
Proof.
  intros cls fmt args table_name Hlen.
  exists (new_Expression cls (construct_elements (split_fmt fmt) args)).
  assert (Hsql :
    @to_sql sql_models
      (new_Expression cls (construct_elements (split_fmt fmt) args)) table_name
    = Ok (weave_str (map escape_format_string_model (split_fmt fmt))
            (map (fun a => parenthesized a (@sql_text sql_models table_name a))
               args))).
  { rewrite to_sql_ok, sql_text_construct_elements. do 2 f_equal.
    - apply map_ext. intros p. unfold text_elements.
      destruct (String.eqb p EmptyString) eqn:E.
      + apply String.eqb_eq in E. subst p. reflexivity.
      + unfold join; simpl. apply string_app_nil_r.
    - apply map_ext. intros a. unfold operand_elements, parenthesized.
      destruct (is_NonAtomic a); unfold join; simpl.
      + reflexivity.
      + apply string_app_nil_r. }
  repeat split.
  - now apply construct_ok.
  - apply tokens_construct_elements.
  - intros a. apply to_sql_ok.
  - exact Hsql.
  - intros Hnb. rewrite Hsql. now rewrite map_escape_no_brace.
Qed.

(** An instance of C1 (amended): a NonAtomic operand and a plain one in the
    template of a product. *)
Lemma construct_substitutes_operands_witness :
  exists e,
    construct NonAtomic "{} * {}"
      [Expr NonAtomic [Tok (RawToken "a + b")]; Expr Plain [Tok (RawToken "c")]]
    = Ok e
    /\ @to_sql sql_models e None = Ok "(a + b) * c".
Proof.
  destruct (@construct_substitutes_operands NonAtomic "{} * {}"
              [Expr NonAtomic [Tok (RawToken "a + b")];
               Expr Plain [Tok (RawToken "c")]] None eq_refl)
    as [e [He [_ [_ [_ [_ Hsql]]]]]].
  exists e. split; [exact He|]. apply Hsql. reflexivity.
Defined.

(** C1 fails as stated: a template whose text has a brace character that
    is not part of a marker.  No operand is NonAtomic, and the SQL of the
    constructed expression is not the concatenation of the template text
    with the SQL of the operand: the braces of the text are doubled. *)
Lemma construct_template_text_counterexample :
  let a := Expr Plain [Tok (RawToken "a")] in
  exists e,
    construct Plain "{} = '{x}'" [a] = Ok e
    /\ is_NonAtomic a = false
    /\ @to_sql sql_models a None = Ok "a"
    /\ split_fmt "{} = '{x}'" = [EmptyString; " = '{x}'"]
    /\ @to_sql sql_models e None = Ok "a = '{{x}}'"
    /\ @to_sql sql_models e None <> Ok "a = '{x}'".
Proof.
  eexists. split; [reflexivity|].
  repeat split; try reflexivity.
  vm_compute. discriminate.
Qed.

(** The example of the spec: [construct('{} + {}', a, b)] without a
    NonAtomic operand. *)
Lemma construct_sum_example (cls : ExprClass) (a b : Expression)
    (table_name : option string) :
  is_NonAtomic a = false -> is_NonAtomic b = false ->
  exists e sa sb,
    construct cls "{} + {}" [a; b] = Ok e
    /\ @to_sql sql_models a table_name = Ok sa
    /\ @to_sql sql_models b table_name = Ok sb
    /\ @to_sql sql_models e table_name = Ok (sa ++ " + " ++ sb)%string.
Proof.
  intros Ha Hb.
  exists (new_Expression cls (construct_elements (split_fmt "{} + {}") [a; b])),
    (@sql_text sql_models table_name a), (@sql_text sql_models table_name b).
  split; [now apply construct_ok|].
  split; [apply to_sql_ok|]. split; [apply to_sql_ok|].
  rewrite to_sql_ok, sql_text_construct_elements.
  unfold operand_elements, weave_str, join. simpl. rewrite Ha, Hb. simpl.
  now rewrite !string_app_nil_r.
Qed.

(* ================================================================== *)
(** ** The column reference check of [to_sql] *)

Section RenderCheck.
Context {U : SqlUtil}.

Lemma render_items_column_reference (rec : Expression -> result string)
    (items : list Element) (column_name : string) :
  In (Tok (ColumnReferenceToken column_name)) items ->
  (forall d, In (Sub d) items -> exists s, rec d = Ok s) ->
  render_items rec items = Raise UnresolvedColumnReference.
Proof.
  induction items as [|x l IH]; intros Hin Hrec; [destruct Hin|].
  simpl. destruct Hin as [->|Hin].
  - reflexivity.
  - destruct x as [t|d]; simpl.
    + destruct t; simpl; try reflexivity;
        rewrite IH; auto; intros d Hd; apply Hrec; now right.
    + destruct (Hrec d (or_introl eq_refl)) as [s ->]. simpl.
      rewrite IH; auto. intros d' Hd'. apply Hrec. now right.
Qed.

(** C5 (amended): [to_sql] resolves the column references itself before it
    renders, so for every expression, with or without ColumnReference
    tokens, it returns the SQL text and never fails; what it renders is the
    resolved expression, which has no ColumnReferenceToken.  The loop of
    [to_sql] does raise a ValueError when it meets a ColumnReferenceToken
    among the elements it is given. *)
Theorem to_sql_resolves_column_references :
  forall (e : Expression) (table_name : option string),
    to_sql e table_name = Ok (sql_text table_name e)
    /\ to_sql e table_name
       = to_sql (resolve_column_references e table_name) None
    /\ has_column_reference (resolve_column_references e table_name) = false
    /\ (forall rec items column_name,
          In (Tok (ColumnReferenceToken column_name)) items ->
          (forall d, In (Sub d) items -> exists s, rec d = Ok s) ->
          render_items rec items = Raise UnresolvedColumnReference)
    /\ exception_class UnresolvedColumnReference = ValueError.
Proof.
  intros e table_name. repeat split.
  - apply to_sql_ok.
  - now rewrite !to_sql_ok, sql_text_resolve.
  - apply resolve_no_column_reference.
  - apply render_items_column_reference.
Qed.

End RenderCheck.

(** An instance of C5 (amended): a column reference renders as the quoted
    identifier, and the loop of [to_sql] given the unresolved token
    raises. *)
Lemma to_sql_resolves_column_references_witness :
  @to_sql sql_models (column_reference Plain "x") (Some "t")
  = Ok (@sql_text sql_models (Some "t") (column_reference Plain "x"))
  /\ @render_items sql_models (fun _ => Ok EmptyString)
       [Tok (ColumnReferenceToken "x")]
     = Raise UnresolvedColumnReference.
Proof.
  destruct (@to_sql_resolves_column_references sql_models
              (column_reference Plain "x") (Some "t"))
    as [H1 [_ [_ [H4 _]]]].
  split; [exact H1|].
  apply (H4 (fun _ => Ok EmptyString) [Tok (ColumnReferenceToken "x")] "x").
  - simpl. left. reflexivity.
  - intros d [Hd|[]]. discriminate Hd.
Defined.

(** C5 fails as stated: an expression that holds an unresolved
    ColumnReferenceToken when [to_sql] is called is rendered, not
    rejected. *)
Lemma to_sql_column_reference_counterexample :
  has_column_reference (column_reference Plain "x") = true
  /\ @to_sql sql_models (column_reference Plain "x") None
     = Ok (String dquote (String "x" (String dquote EmptyString)))
  /\ @to_sql sql_models (column_reference Plain "x") (Some "t")
     = Ok (String dquote (String "t" (String dquote
            (String "." (String dquote (String "x" (String dquote EmptyString))))))).
Proof. repeat split; reflexivity. Qed.

(* ================================================================== *)
(** ** The constructor *)

Lemma data_new_Expression_app (cls : ExprClass) (l1 l2 : list Element) :
  data (new_Expression cls (l1 ++ l2))
  = data (new_Expression cls l1) ++ data (new_Expression cls l2).
Proof. unfold new_Expression; simpl. apply flat_map_app. Qed.

(** C6 (amended): the constructor flattens one level of the elements that
    are Expressions of the base class only: the elements of such a child
    are spliced in place, a token is kept, and a child of a tagged subclass
    is kept as one nested element, with its class.  The class of the new
    expression is the class that is constructed, whatever the classes of
    the children.  The tokens of the tree keep their order, and when the
    children are well-formed the result has no child of the base class
    left. *)
Theorem constructor_flattens_plain_children :
  forall (cls : ExprClass) (l : list Element),
    cls_of (new_Expression cls l) = cls
    /\ (forall l1 l2,
          data (new_Expression cls (l1 ++ l2))
          = data (new_Expression cls l1) ++ data (new_Expression cls l2))
    /\ (forall t, data (new_Expression cls [Tok t]) = [Tok t])
    /\ (forall d, data (new_Expression cls [Sub (Expr Plain d)]) = d)
    /\ (forall c d, c <> Plain ->
          data (new_Expression cls [Sub (Expr c d)]) = [Sub (Expr c d)])
    /\ tokens (new_Expression cls l) = flat_map tokens_item l
    /\ (Forall (fun x => match x with
                         | Tok _ => True
                         | Sub d => well_formed d = true
                         end) l ->
        well_formed (new_Expression cls l) = true).
Proof.
  intros cls l. repeat split.
  - apply data_new_Expression_app.
  - intros d. simpl. apply app_nil_r.
  - intros c d Hc. destruct c; simpl; try reflexivity. congruence.
  - apply tokens_new_Expression.
  - apply new_Expression_well_formed.
Qed.

(** An instance of C6 (amended): a plain child and a NonAtomic child. *)
Lemma constructor_flattens_plain_children_witness :
  data (new_Expression SingleValue
          [Sub (Expr NonAtomic [Tok (RawToken "a")])])
  = [Sub (Expr NonAtomic [Tok (RawToken "a")])]
  /\ well_formed (new_Expression SingleValue
                    [Sub (Expr Plain [Tok (RawToken "b")])]) = true.
Proof.
  destruct (constructor_flattens_plain_children SingleValue
              [Sub (Expr Plain [Tok (RawToken "b")])])
    as [_ [_ [_ [_ [H5 [_ H7]]]]]].
  split.
  - apply H5. discriminate.
  - apply H7. repeat constructor.
Defined.

(** C6 fails as stated: the elements of a child Expression of a tagged
    subclass are not spliced into the new expression; the child stays
    nested, with its class. *)
Lemma constructor_tagged_child_counterexample :
  let child := new_Expression NonAtomic [Tok (RawToken "a"); Tok (RawToken "b")] in
  data child = [Tok (RawToken "a"); Tok (RawToken "b")]
  /\ data (new_Expression Plain [Tok (RawToken "x"); Sub child])
     = [Tok (RawToken "x"); Sub child]
  /\ data (new_Expression Plain [Tok (RawToken "x"); Sub child])
     <> [Tok (RawToken "x"); Tok (RawToken "a"); Tok (RawToken "b")].
Proof. repeat split; try reflexivity. discriminate. Qed.

(* ================================================================== *)
(** ** Derived properties *)

Lemma nonempty_and_all_spec (l : list bool) :
  nonempty_and_all l = true <-> l <> [] /\ Forall (fun b => b = true) l.
Proof.
  unfold nonempty_and_all. rewrite andb_true_iff, forallb_forall, Forall_forall.
  destruct l; simpl; split; intros [H1 H2]; split; auto; congruence.
Qed.

Lemma is_constant_items (d : list Element) :
  flat_map is_constant_item d = map is_constant (sub_expressions d).
Proof.
  unfold sub_expressions.
  induction d as [|[t|e] d IH]; simpl; congruence.
Qed.

Lemma is_single_value_items (d : list Element) :
  flat_map is_single_value_item d = map is_single_value (sub_expressions d).
Proof.
  unfold sub_expressions.
  induction d as [|[t|e] d IH]; simpl; congruence.
Qed.

Lemma nonempty_and_all_map {A : Type} (f : A -> bool) (l : list A) :
  nonempty_and_all (map f l) = true
  <-> l <> [] /\ Forall (fun x => f x = true) l.
Proof.
  rewrite nonempty_and_all_spec, Forall_map.
  destruct l; simpl; intuition congruence.
Qed.

Lemma is_constant_base (c : ExprClass) (d : list Element) :
  c <> ConstValue ->
  is_constant (Expr c d) = nonempty_and_all (map is_constant (sub_expressions d)).
Proof.
  intros Hc. rewrite <- is_constant_items. destruct c; try reflexivity. congruence.
Qed.

Lemma is_single_value_base (c : ExprClass) (d : list Element) :
  c <> SingleValue -> c <> ConstValue ->
  is_single_value (Expr c d)
  = nonempty_and_all (map is_single_value (sub_expressions d)).
Proof.
  intros Hs Hc. rewrite <- is_single_value_items.
  destruct c; try reflexivity; congruence.
Qed.

(** C7 (amended): for an expression that is not of the Const class,
    [is_constant] is true exactly when the expression has at least one
    child Expression and all its child Expressions are constant; tokens do
    not count, so an expression of such a class made of tokens only, or
    empty, is not constant.  An expression of the Const class is constant
    whatever its elements.  [is_single_value] follows the same rule for an
    expression that is neither of the SingleValue nor of the Const class,
    and is true for those two classes.  [ConstValueExpression] of
    [Expression.raw('1')] is constant; [Expression.raw('1')] is not. *)
Theorem is_constant_rule :
  forall e : Expression,
    (cls_of e <> ConstValue ->
     (is_constant e = true
      <-> sub_expressions (data e) <> []
          /\ Forall (fun d => is_constant d = true) (sub_expressions (data e))))
    /\ (cls_of e = ConstValue -> is_constant e = true)
    /\ (cls_of e <> SingleValue -> cls_of e <> ConstValue ->
        (is_single_value e = true
         <-> sub_expressions (data e) <> []
             /\ Forall (fun d => is_single_value d = true)
                  (sub_expressions (data e))))
    /\ (cls_of e = SingleValue \/ cls_of e = ConstValue ->
        is_single_value e = true)
    /\ is_constant (new_Expression_of ConstValue (raw Plain "1")) = true
    /\ is_constant (raw Plain "1") = false.
Proof.
  intros [c d]. simpl cls_of. simpl data.
  split; [|split; [|split; [|split; [|split]]]].
  - intros Hc. rewrite is_constant_base by exact Hc. apply nonempty_and_all_map.
  - intros ->. reflexivity.
  - intros Hs Hc. rewrite is_single_value_base by assumption.
    apply nonempty_and_all_map.
  - intros [-> | ->]; reflexivity.
  - reflexivity.
  - reflexivity.
Qed.

(** An instance of C7 (amended): a NonAtomic expression over a constant is
    constant, and an expression of the Const class is. *)
Lemma is_constant_rule_witness :
  let c1 := new_Expression_of ConstValue (raw Plain "1") in
  is_constant (new_Expression NonAtomic [Sub c1; Tok (RawToken " + 1")]) = true
  /\ is_constant c1 = true
  /\ is_single_value (new_Expression SingleValue []) = true.
Proof.
  intros c1.
  destruct (is_constant_rule (new_Expression NonAtomic [Sub c1; Tok (RawToken " + 1")]))
    as [H1 _].
  destruct (is_constant_rule c1) as [_ [H2 _]].
  destruct (is_constant_rule (new_Expression SingleValue [])) as [_ [_ [_ [H4 _]]]].
  split; [|split].
  - apply H1; [discriminate|]. split; [discriminate|].
    repeat constructor.
  - apply H2. reflexivity.
  - apply H4. left. reflexivity.
Defined.

(** C7 fails as stated: an expression of the Const class is constant with
    no child at all, and in the claim's own example, the Const wrapping of
    [Expression.raw('1')], with a token but no child Expression; an empty
    SingleValue expression is single-valued. *)
Lemma is_constant_counterexample :
  data (new_Expression ConstValue []) = []
  /\ is_constant (new_Expression ConstValue []) = true
  /\ sub_expressions (data (new_Expression_of ConstValue (raw Plain "1"))) = []
  /\ is_constant (new_Expression_of ConstValue (raw Plain "1")) = true
  /\ data (new_Expression SingleValue []) = []
  /\ is_single_value (new_Expression SingleValue []) = true.
Proof. repeat split; reflexivity. Qed.

(* ================================================================== *)
(** ** Equality of expressions *)

Lemma ExpressionToken_eqb_eq (s t : ExpressionToken) :
  ExpressionToken_eqb s t = true <-> s = t.
Proof.
  destruct s, t; simpl; try (split; [discriminate|congruence]);
    try (rewrite String.eqb_eq; split; congruence).
  unfold SqlModel_eqb. rewrite String.eqb_eq.
  destruct model, model0; simpl. split; congruence.
Qed.

Lemma Expression_eqb_data (c1 c2 : ExprClass) (d1 d2 : list Element) :
  Expression_eqb (Expr c1 d1) (Expr c2 d2) = list_eqb Element_eqb d1 d2.
Proof.
  revert d2. induction d1 as [|x d1 IH]; intros [|y d2]; try reflexivity.
  simpl in *. now rewrite IH.
Qed.

Lemma Expression_eqb_erase (a : Expression) :
  forall b, Expression_eqb a b = true <-> erase_classes a = erase_classes b.
Proof.
  induction a using Expression_ind2
    with (Q := fun x => forall y,
                 Element_eqb x y = true <-> erase_item x = erase_item y).
  - intros [c' d']. rewrite Expression_eqb_data. simpl.
    revert d'. induction H as [|x l Hx _ IH]; intros [|y d']; simpl.
    + tauto.
    + split; discriminate.
    + split; discriminate.
    + rewrite andb_true_iff, Hx, IH. split.
      * intros [H1 H2]. congruence.
      * intros H. injection H as H1 H2. split; congruence.
  - intros [t'|d']; simpl.
    + rewrite ExpressionToken_eqb_eq. split; congruence.
    + split; discriminate.
  - intros [t'|d']; simpl.
    + split; discriminate.
    + rewrite IHa. split; congruence.
Qed.

Lemma Expression_eqb_refl (a : Expression) : Expression_eqb a a = true.
Proof. now apply Expression_eqb_erase. Qed.

(** C10: the equality of two expressions is decided by their element
    sequences alone.  Two expressions with equal element sequences compare
    equal whatever their classes; the comparison gives the same answer
    when the class of either side is replaced by any other; it holds
    exactly when the two trees are the same once the classes of all nodes
    are forgotten.  A Const expression equals the plain expression with
    the same tokens, although only the first is constant. *)
Theorem Expression_eq_ignores_class :
  forall a b : Expression,
    (data a = data b -> Expression_eqb a b = true)
    /\ (forall c c',
          Expression_eqb (Expr c (data a)) (Expr c' (data b))
          = Expression_eqb a b)
    /\ (Expression_eqb a b = true <-> erase_classes a = erase_classes b)
    /\ (let k := new_Expression_of ConstValue (raw Plain "1") in
        let p := raw Plain "1" in
        Expression_eqb k p = true /\ Expression_eqb p k = true
        /\ is_constant k = true /\ is_constant p = false).
Proof.
  intros [c1 d1] [c2 d2]. simpl data.
  split; [|split; [|split]].
  - intros ->. rewrite Expression_eqb_data.
    rewrite <- (Expression_eqb_data c2 c2). apply Expression_eqb_refl.
  - intros c c'. now rewrite !Expression_eqb_data.
  - apply Expression_eqb_erase.
  - repeat split; reflexivity.
Qed.

(** An instance of C10: a SingleValue and a NonAtomic expression over the
    same elements. *)
Lemma Expression_eq_ignores_class_witness :
  Expression_eqb
    (Expr SingleValue [Tok (RawToken "max("); Tok (ColumnReferenceToken "x");
                       Tok (RawToken ")")])
    (Expr NonAtomic [Tok (RawToken "max("); Tok (ColumnReferenceToken "x");
                     Tok (RawToken ")")]) = true.
Proof.
  destruct (Expression_eq_ignores_class
              (Expr SingleValue [Tok (RawToken "max("); Tok (ColumnReferenceToken "x");
                                 Tok (RawToken ")")])
              (Expr NonAtomic [Tok (RawToken "max("); Tok (ColumnReferenceToken "x");
                               Tok (RawToken ")")])) as [H _].
  apply H. reflexivity.
Defined.

(* ================================================================== *)
(** ** Independent subqueries *)

Section SubqueryFacts.
Context {U : SqlUtil} {B : BachEnv}.

Lemma subquery_construct (operation : option string) (series : Series) :
  In operation subquery_operations ->
  construct IndependentSubquery (subquery_fmt operation)
    [column_reference Plain (name series);
     model_reference Plain (materialize_base_node series)]
  = Ok (Expr IndependentSubquery (subquery_elements operation series)).
Proof.
  intros Hop. simpl in Hop.
  destruct Hop as [<-|[<-|[<-|[<-|[<-|[]]]]]]; reflexivity.
Qed.

Lemma as_independent_subquery_eq (series : Series) (operation : option string) :
  In operation subquery_operations ->
  as_independent_subquery series operation None
  = Ok (mkSeries (dtype series) (engine series) (base_node series) []
          (name series)
          (Expr (if is_single_value (expression series)
                 then SingleValue else IndependentSubquery)
             (subquery_elements operation series))
          None (sorted_ascending series)).
Proof.
  intros Hop. unfold as_independent_subquery.
  rewrite subquery_construct by exact Hop. simpl.
  destruct (is_single_value (expression series)); reflexivity.
Qed.

(** C9: for every Series and every prefix among none, exists, any, all and
    in, [as_independent_subquery] returns a Series whose expression has the
    elements of [OP (SELECT <column> FROM <materialized unit>)]: the text,
    a reference to the column of the Series by name, and a reference to
    the unit that materializes the frame of the Series.  When the
    expression of the Series is single-valued, in particular when it is of
    the SingleValue or Const class, the new expression is of the
    SingleValue class; otherwise it is of the IndependentSubquery class.
    The Series returned has an empty index and no pending group_by, and
    the other attributes of the Series given. *)
Theorem as_independent_subquery_shape :
  forall (series : Series) (operation : option string),
    In operation subquery_operations ->
    exists r,
      as_independent_subquery series operation None = Ok r
      /\ data (expression r) = subquery_elements operation series
      /\ sql_text None (expression r)
         = (escape_format_string
              (match operation with
               | Some op => (op ++ " (SELECT ")%string
               | None => "(SELECT "
               end)
            ++ escape_format_string (quote_identifier (name series))
            ++ escape_format_string " FROM "
            ++ "{" ++ refname (materialize_base_node series) ++ "}"
            ++ escape_format_string ")")%string
      /\ (is_single_value (expression series) = true ->
          cls_of (expression r) = SingleValue
          /\ is_single_value (expression r) = true)
      /\ (cls_of (expression series) = SingleValue
          \/ cls_of (expression series) = ConstValue ->
          cls_of (expression r) = SingleValue)
      /\ (is_single_value (expression series) = false ->
          cls_of (expression r) = IndependentSubquery
          /\ is_independent_subquery (expression r) = true)
      /\ index r = []
      /\ group_by r = None
      /\ name r = name series
      /\ dtype r = dtype series
      /\ base_node r = base_node series.
Proof.
  intros series operation Hop.
  eexists. split; [apply as_independent_subquery_eq, Hop|]. simpl.
  split; [reflexivity|].
  split.
  { unfold join; simpl. now rewrite string_app_nil_r, string_app_assoc. }
  split; [intros ->; split; reflexivity|].
  split.
  { intros H. assert (Hs : is_single_value (expression series) = true).
    { destruct (expression series) as [c d]. simpl in H.
      destruct H as [-> | ->]; reflexivity. }
    now rewrite Hs. }
  split; [intros ->; split; reflexivity|].
  repeat split; reflexivity.
Qed.

End SubqueryFacts.

(** An instance of C9: the subquery of a whole-input maximum, with the
    prefix [any]. *)
Lemma as_independent_subquery_shape_witness :
  exists r,
    @as_independent_subquery bach_model
      (mkSeries "int64" "engine" {| hash := "base" |} [] "x"
         (Expr SingleValue [Tok (RawToken "max("); Tok (ColumnReferenceToken "x");
                            Tok (RawToken ")")])
         (Some GroupBy_empty) None)
      (Some "any") None = Ok r
    /\ cls_of (expression r) = SingleValue
    /\ index r = [] /\ group_by r = None
    /\ @to_sql sql_models (expression r) None
       = Ok (String.append "any (SELECT "
               (String dquote (String "x" (String dquote
                  " FROM {referencebase_x})")))).
Proof.
  destruct (@as_independent_subquery_shape sql_models bach_model
              (mkSeries "int64" "engine" {| hash := "base" |} [] "x"
                 (Expr SingleValue [Tok (RawToken "max(");
                                    Tok (ColumnReferenceToken "x");
                                    Tok (RawToken ")")])
                 (Some GroupBy_empty) None)
              (Some "any"))
    as [r [Hr [Hd [_ [Hs [_ [_ [Hi [Hg _]]]]]]]]].
  { simpl. right. right. left. reflexivity. }
  exists r. split; [exact Hr|].
  split; [apply Hs; reflexivity|].
  split; [exact Hi|]. split; [exact Hg|].
  rewrite to_sql_ok. destruct (expression r) as [c d]. simpl in Hd. subst d.
  reflexivity.
Defined.

(* ================================================================== *)
(** ** Operands from another query context *)

Section OperandFacts.
Context {U : SqlUtil} {B : BachEnv}.

Lemma other_context_test (self other : Series) :
  other_context self other ->
  negb (is_constant (expression other)
        || is_independent_subquery (expression other)) = true
  /\ negb (SqlModel_eqb (base_node self) (base_node other))
     || negb (option_eqb GroupBy_eqb (group_by self) (group_by other)) = true.
Proof.
  intros [Hc [Hi Hd]]. rewrite Hc, Hi. split; [reflexivity|].
  destruct Hd as [-> | ->]; simpl; auto using orb_true_r.
Qed.

(** C3 (amended): when the expression of the right-hand side is neither
    constant nor an independent subquery and the two Series differ in
    base_node or group_by, then: if the expression of the right-hand side
    is single-valued, the right-hand side is converted into the Series of
    the subquery [(SELECT <column> FROM <materialized unit>)], and the
    operation goes on with it provided its dtype is in the allow-list of
    the operation, else it raises the type-mismatch error; if the
    expression is not single-valued, the operation raises the
    context-incompatibility error, a ValueError, without converting
    anything. *)
Theorem get_supported_other_context :
  forall (self other : Series) (supported_dtypes : list string),
    other_context self other ->
    (is_single_value (expression other) = true ->
     exists o',
       as_independent_subquery other None None = Ok o'
       /\ data (expression o') = subquery_elements None other
       /\ dtype o' = dtype other
       /\ (existsb (String.eqb (lower (dtype other))) supported_dtypes = true ->
           _get_supported self supported_dtypes other = Ok o'
           /\ forall fmt_str dtype_arg,
                length (split_fmt fmt_str) = 3 ->
                _binary_operation self other fmt_str supported_dtypes dtype_arg
                = copy_override self (result_dtype dtype_arg o') None None None None
                    (Some (new_Expression NonAtomic
                             (construct_elements (split_fmt fmt_str)
                                [expression self; expression o'])))
                    None None)
       /\ (existsb (String.eqb (lower (dtype other))) supported_dtypes = false ->
           _get_supported self supported_dtypes other = Raise DtypeNotSupported))
    /\ (is_single_value (expression other) = false ->
        _get_supported self supported_dtypes other = Raise RhsContextMismatch
        /\ exception_class RhsContextMismatch = ValueError
        /\ forall fmt_str dtype_arg,
             supported_dtypes <> [] ->
             _binary_operation self other fmt_str supported_dtypes dtype_arg
             = Raise RhsContextMismatch).
Proof.
  intros self other supported_dtypes Hctx.
  destruct (other_context_test Hctx) as [H1 H2].
  split.
  - intros Hsv. eexists.
    split; [apply as_independent_subquery_eq; left; reflexivity|].
    simpl. split; [reflexivity|]. split; [reflexivity|].
    assert (Hgs : forall b,
               existsb (String.eqb (lower (dtype other))) supported_dtypes = b ->
               _get_supported self supported_dtypes other
               = if b
                 then as_independent_subquery other None None
                 else Raise DtypeNotSupported).
    { intros b Hb. unfold _get_supported. rewrite H1, H2, Hsv.
      rewrite as_independent_subquery_eq by (left; reflexivity).
      simpl. rewrite Hb. destruct b; reflexivity. }
    split.
    + intros Hdt. rewrite (Hgs true Hdt).
      split; [apply as_independent_subquery_eq; left; reflexivity|].
      intros fmt_str dtype_arg Hfmt.
      unfold _binary_operation.
      destruct supported_dtypes as [|x l]; [discriminate Hdt|].
      simpl length. simpl Nat.eqb. cbv iota.
      rewrite (Hgs true Hdt).
      rewrite as_independent_subquery_eq by (left; reflexivity).
      simpl bind. rewrite construct_ok by (rewrite Hfmt; reflexivity).
      reflexivity.
    + intros Hdt. apply (Hgs false Hdt).
  - intros Hsv.
    assert (Hgs : _get_supported self supported_dtypes other
                  = Raise RhsContextMismatch).
    { unfold _get_supported. rewrite H1, H2, Hsv. reflexivity. }
    split; [exact Hgs|]. split; [reflexivity|].
    intros fmt_str dtype_arg Hne. unfold _binary_operation.
    destruct supported_dtypes as [|x l]; [congruence|].
    simpl length. simpl Nat.eqb. cbv iota. rewrite Hgs. reflexivity.
Qed.

End OperandFacts.

(** An instance of C3 (amended): a column compared with the maximum of a
    column of another frame, and with that column itself. *)
Lemma get_supported_other_context_witness :
  let a := column "base" "int64" "x" in
  let b := mkSeries "int64" "engine" {| hash := "other" |} [] "y"
             (Expr SingleValue [Tok (RawToken "max("); Tok (ColumnReferenceToken "y");
                                Tok (RawToken ")")])
             (Some GroupBy_empty) None in
  (exists r,
     @_binary_operation bach_model a b "{} > {}" ["int64"; "float64"]
       (DtypeStr "bool") = Ok r
     /\ dtype r = "bool"
     /\ @to_sql sql_models (expression r) None
        = Ok (String dquote (String "x" (String dquote
               (String.append " > (SELECT "
                  (String dquote (String "y" (String dquote
                     " FROM {referenceother_y})"))))))))
  /\ @_binary_operation bach_model a (column "other" "int64" "y") "{} > {}"
       ["int64"; "float64"] (DtypeStr "bool") = Raise RhsContextMismatch.
Proof.
  intros a b. split.
  - destruct (@get_supported_other_context bach_model a b ["int64"; "float64"])
      as [H _].
    { repeat split. left. reflexivity. }
    destruct (H eq_refl) as [o' [Ho [_ [_ [Hok _]]]]].
    destruct (Hok eq_refl) as [_ Hbin].
    rewrite (Hbin "{} > {}" (DtypeStr "bool") eq_refl).
    injection Ho as <-. eexists. split; [reflexivity|].
    split; reflexivity.
  - destruct (@get_supported_other_context bach_model a
                (column "other" "int64" "y") ["int64"; "float64"])
      as [_ H].
    { repeat split. left. reflexivity. }
    destruct (H eq_refl) as [_ [_ Hbin]].
    apply Hbin. discriminate.
Defined.

(** C3 fails as stated: the right-hand side is single-valued, neither
    constant nor an independent subquery, and of another base_node, and the
    operation does not succeed: the converted right-hand side has a dtype
    that the operation does not allow. *)
Lemma get_supported_dtype_counterexample :
  let a := column "base" "int64" "x" in
  let b := mkSeries "string" "engine" {| hash := "other" |} [] "y"
             (Expr SingleValue [Tok (RawToken "max("); Tok (ColumnReferenceToken "y");
                                Tok (RawToken ")")])
             (Some GroupBy_empty) None in
  is_constant (expression b) = false
  /\ is_independent_subquery (expression b) = false
  /\ SqlModel_eqb (base_node a) (base_node b) = false
  /\ is_single_value (expression b) = true
  /\ @_get_supported bach_model a ["int64"; "float64"] b = Raise DtypeNotSupported
  /\ @_binary_operation bach_model a b "{} > {}" ["int64"; "float64"]
       (DtypeStr "bool") = Raise DtypeNotSupported
  /\ exception_class DtypeNotSupported = TypeError.
Proof. repeat split; reflexivity. Qed.

(* ================================================================== *)
(** ** The aggregation gate *)

Section AggregationFacts.
Context {U : SqlUtil} {B : BachEnv}.

Lemma derived_agg_func_fuel_eq (fuel : nat) (self : Series)
    (partition : option Wrapped) (expression_arg : AggExpr)
    (dtype_arg : option string) (skipna : bool) (min_count : option Z) :
  _derived_agg_func_fuel (S fuel) self partition expression_arg dtype_arg
    skipna min_count
  = if negb skipna then Raise SkipnaNotSupported
    else if has_windowed_aggregate_function (expression self)
    then Raise AlreadyWindowed
    else if has_aggregate_function (expression self)
    then Raise AlreadyAggregated
    else
      expr <- match expression_arg with
              | AggName fn =>
                  construct AggregateFunction (fn ++ "({})")%string
                    [expression self]
              | AggExpression e => Ok e
              end ;;
      partition <- effective_partition self partition ;;
      expr <- match min_count with
              | Some n =>
                  if (0 <? n)%Z then
                    if is_Window partition then
                      if negb (Z.eqb (min_values partition) n)
                      then Raise MinCountConflict
                      else Ok expr
                    else
                      cnt <- _derived_agg_func_fuel fuel self
                               (Some (WGroupBy partition)) (AggName "count")
                               (Some "int64") skipna None ;;
                      construct Plain
                        ("CASE WHEN {} >= " ++ str_of_Z n
                           ++ " THEN {} ELSE NULL END")%string
                        [expression cnt; expr]
                  else Ok expr
              | None => Ok expr
              end ;;
      let derived_dtype :=
        match dtype_arg with None => dtype self | Some d => d end in
      if negb (is_Window partition) then
        if match group_by self with
           | Some g => negb (GroupBy_eqb g partition)
           | None => false
           end
        then Raise PartitionMismatch
        else if negb (has_aggregate_function expr)
        then Raise NoAggregationFunction
        else
          let expr := match gb_index partition with
                      | [] => new_Expression_of SingleValue expr
                      | _ :: _ => expr
                      end in
          copy_override self (Some derived_dtype) None None
            (Some (gb_index partition)) None (Some expr)
            (Some (Some partition)) None
      else
        copy_override self (Some derived_dtype) None None None None
          (Some (get_window_expression partition expr)) None None.
Proof. reflexivity. Qed.

(** The preconditions of the gate: with [skipna] left true, a Series whose
    expression is windowed or has an aggregate function is rejected,
    whatever the other arguments. *)
Lemma derived_agg_func_gate (self : Series) (partition : option Wrapped)
    (expression_arg : AggExpr) (dtype_arg : option string)
    (min_count : option Z) :
  (has_windowed_aggregate_function (expression self) = true ->
   _derived_agg_func self partition expression_arg dtype_arg true min_count
   = Raise AlreadyWindowed)
  /\ (has_windowed_aggregate_function (expression self) = false ->
      has_aggregate_function (expression self) = true ->
      _derived_agg_func self partition expression_arg dtype_arg true min_count
      = Raise AlreadyAggregated).
Proof.
  unfold _derived_agg_func. rewrite derived_agg_func_fuel_eq. simpl negb.
  split.
  - intros ->. reflexivity.
  - intros -> ->. reflexivity.
Qed.

(** C8: when an aggregation through the gate returns, and the partition it
    resolved (the argument, else the pending group_by, else the grouping
    over the whole input) is not a window and has an empty grouping key,
    the expression of the Series returned is of the SingleValue class, the
    Series is bound to the index of the partition, and the partition is its
    pending group_by. *)
Theorem derived_agg_func_whole_input :
  forall (self : Series) (partition : option Wrapped) (expression_arg : AggExpr)
         (dtype_arg : option string) (skipna : bool) (min_count : option Z)
         (p : GroupBy) (r : Series),
    effective_partition self partition = Ok p ->
    is_Window p = false ->
    gb_index p = [] ->
    _derived_agg_func self partition expression_arg dtype_arg skipna min_count
    = Ok r ->
    cls_of (expression r) = SingleValue
    /\ is_single_value (expression r) = true
    /\ index r = gb_index p
    /\ group_by r = Some p.
Proof.
  intros self partition expression_arg dtype_arg skipna min_count p r
         Hp Hwin Hidx H.
  unfold _derived_agg_func in H. rewrite derived_agg_func_fuel_eq in H.
  destruct (negb skipna); [discriminate|].
  destruct (has_windowed_aggregate_function (expression self)); [discriminate|].
  destruct (has_aggregate_function (expression self)); [discriminate|].
  destruct (match expression_arg with
            | AggName fn => construct AggregateFunction (fn ++ "({})")%string
                              [expression self]
            | AggExpression e => Ok e
            end) as [e0|]; [|discriminate].
  simpl bind in H. rewrite Hp in H. simpl bind in H.
  match type of H with
  | bind ?m _ = _ => destruct m as [e1|]; [|discriminate]
  end.
  simpl bind in H. rewrite Hwin, Hidx in H. simpl negb in H. cbv iota in H.
  destruct (match group_by self with
            | Some g => negb (GroupBy_eqb g p)
            | None => false
            end); [discriminate|].
  destruct (negb (has_aggregate_function e1)); [discriminate|].
  unfold copy_override in H.
  destruct (get_series_type_from_dtype
              match dtype_arg with
              | Some d => d
              | None => dtype self
              end) as [k|]; [|discriminate].
  simpl in H. injection H as <-. simpl.
  rewrite Hidx. repeat split; reflexivity.
Qed.

(** The gate returns for an aggregation over the whole input: a Series
    without pending group_by, whose expression is neither windowed nor
    aggregated and whose dtype is registered. *)
Lemma derived_agg_func_returns (self : Series) (fn : string) (k : string)
    (e : Expression) :
  has_windowed_aggregate_function (expression self) = false ->
  has_aggregate_function (expression self) = false ->
  group_by self = None ->
  get_series_type_from_dtype (dtype self) = Ok k ->
  construct AggregateFunction (fn ++ "({})")%string [expression self] = Ok e ->
  cls_of e = AggregateFunction ->
  _derived_agg_func self None (AggName fn) None true None
  = Ok (mkSeries k (engine self) (base_node self) [] (name self)
          (new_Expression_of SingleValue e) (Some GroupBy_empty)
          (sorted_ascending self)).
Proof.
  intros Hw Ha Hg Hk He Hc.
  unfold _derived_agg_func. rewrite derived_agg_func_fuel_eq.
  simpl negb. cbv iota. rewrite Hw, Ha, He. simpl bind.
  unfold effective_partition. rewrite Hg. simpl bind. simpl negb. cbv iota.
  destruct e as [c d]. simpl in Hc. subst c. simpl.
  unfold copy_override. rewrite Hk. reflexivity.
Qed.

End AggregationFacts.

(** Without [min_count] the gate does not call itself: any positive fuel
    gives the same result. *)
Lemma derived_agg_func_fuel_count {B : BachEnv} (f f' : nat) (self : Series)
    (partition : option Wrapped) (expression_arg : AggExpr)
    (dtype_arg : option string) (skipna : bool) :
  _derived_agg_func_fuel (S f) self partition expression_arg dtype_arg skipna None
  = _derived_agg_func_fuel (S f') self partition expression_arg dtype_arg
      skipna None.
Proof. reflexivity. Qed.

(** The fuel of [_derived_agg_func] is enough: more fuel gives the same
    result. *)
Lemma derived_agg_func_fuel_enough {B : BachEnv} (f : nat) (self : Series)
    (partition : option Wrapped) (expression_arg : AggExpr)
    (dtype_arg : option string) (skipna : bool) (min_count : option Z) :
  _derived_agg_func_fuel (S (S f)) self partition expression_arg dtype_arg
    skipna min_count
  = _derived_agg_func self partition expression_arg dtype_arg skipna min_count.
Proof.
  unfold _derived_agg_func. rewrite !derived_agg_func_fuel_eq.
  destruct (negb skipna); [reflexivity|].
  destruct (has_windowed_aggregate_function (expression self)); [reflexivity|].
  destruct (has_aggregate_function (expression self)); [reflexivity|].
  destruct (match expression_arg with
            | AggName fn => construct AggregateFunction (fn ++ "({})")%string
                              [expression self]
            | AggExpression e => Ok e
            end) as [e0|]; [|reflexivity].
  simpl bind. destruct (effective_partition self partition) as [p|]; [|reflexivity].
  simpl bind.
  destruct min_count as [n|]; [|reflexivity].
  destruct (0 <? n)%Z; [|reflexivity].
  destruct (is_Window p); reflexivity.
Qed.

Lemma existsb_ext {A : Type} (p q : A -> bool) (l : list A) :
  (forall x, p x = q x) -> existsb p l = existsb q l.
Proof.
  intros H. induction l as [|x l IH]; simpl; [reflexivity|]. now rewrite H, IH.
Qed.

Lemma has_aggregate_function_splice (x : Element) :
  existsb has_aggregate_function_item (splice x) = has_aggregate_function_item x.
Proof.
  destruct x as [t|[c d]]; simpl; [apply orb_false_r|].
  destruct c; simpl; rewrite ?orb_false_r; reflexivity.
Qed.

(** An expression made from another expression given as [data] reports an
    aggregate function only when an element of that expression does: the
    class of the expression given is not kept. *)
Lemma has_aggregate_function_absorbed (c : ExprClass) (e : Expression) :
  c <> AggregateFunction ->
  has_aggregate_function (new_Expression_of c e)
  = existsb has_aggregate_function_item (data e).
Proof.
  intros Hc. unfold new_Expression_of, new_Expression.
  assert (H : has_aggregate_function (Expr c (flat_map splice (data e)))
              = existsb has_aggregate_function_item (flat_map splice (data e))).
  { destruct c; try reflexivity. congruence. }
  rewrite H, existsb_flat_map. apply existsb_ext.
  intros x. apply has_aggregate_function_splice.
Qed.

(** The named aggregations and the window functions go through the gate:
    on a Series whose expression reports an aggregate function, each of
    them raises the illegal-reaggregation error, a ValueError (the window
    functions when given a window). *)
Lemma aggregations_rejected {B : BachEnv} (self : Series)
    (partition : option Wrapped) (w : GroupBy) :
  has_windowed_aggregate_function (expression self) = false ->
  has_aggregate_function (expression self) = true ->
  is_Window w = true ->
  count self partition true = Raise AlreadyAggregated
  /\ max self partition true = Raise AlreadyAggregated
  /\ min self partition true = Raise AlreadyAggregated
  /\ median self partition true = Raise AlreadyAggregated
  /\ mode self partition true = Raise AlreadyAggregated
  /\ nunique self None true = Raise AlreadyAggregated
  /\ window_row_number self (Some (WGroupBy w)) = Raise AlreadyAggregated
  /\ window_rank self (Some (WGroupBy w)) = Raise AlreadyAggregated
  /\ window_first_value self (Some (WGroupBy w)) = Raise AlreadyAggregated
  /\ exception_class AlreadyAggregated = ValueError.
Proof.
  intros Hw Ha Hwin.
  assert (G : forall p e d m,
             _derived_agg_func self p e d true m = Raise AlreadyAggregated).
  { intros p e d m. now apply derived_agg_func_gate. }
  unfold count, max, min, median, mode, nunique, window_row_number,
    window_rank, window_first_value, window_function, _check_window,
    _check_unwrap_groupby.
  rewrite Hwin. simpl negb. cbv iota.
  rewrite !construct_ok by reflexivity. simpl bind.
  rewrite !G. repeat split; reflexivity.
Qed.

(** An instance of C8: the maximum of a column over the whole input. *)
Lemma derived_agg_func_whole_input_witness :
  exists r,
    @max bach_model (column "base" "int64" "x") None true = Ok r
    /\ cls_of (expression r) = SingleValue
    /\ index r = []
    /\ group_by r = Some GroupBy_empty.
Proof.
  eexists. split; [reflexivity|].
  destruct (@derived_agg_func_whole_input bach_model
              (column "base" "int64" "x") None (AggName "max") None true None
              GroupBy_empty _ eq_refl eq_refl eq_refl eq_refl)
    as [H1 [_ [H3 H4]]].
  split; [exact H1|]. split; [exact H3|exact H4].
Defined.

(** C2 (defect of the code): the maximum of a column over the whole input,
    and the maximum of the result, without materializing in between.  The
    expression made by the first call does not report an aggregate
    function: [SingleValueExpression(expression)] takes the elements of the
    AggregateFunction expression and drops its class.  The second call
    passes the gate and returns a Series.  After a grouped first call, or
    with a minimum count, the second call is rejected. *)
Theorem max_twice_not_rejected :
  let s := column "base" "int64" "x" in
  let g := mkGroupBy false [("g", column "base" "int64" "g")] 0 in
  (exists s1 s2,
     @max bach_model s None true = Ok s1
     /\ has_aggregate_function (expression s1) = false
     /\ has_windowed_aggregate_function (expression s1) = false
     /\ @max bach_model s1 None true = Ok s2
     /\ data (expression s2)
        = [Tok (RawToken "max(");
           Sub (Expr SingleValue
                  [Tok (RawToken "max("); Tok (ColumnReferenceToken "x");
                   Tok (RawToken ")")]);
           Tok (RawToken ")")])
  /\ (exists s1,
        @max bach_model s (Some (WGroupBy g)) true = Ok s1
        /\ has_aggregate_function (expression s1) = true
        /\ @max bach_model s1 None true = Raise AlreadyAggregated)
  /\ (exists s1,
        @_derived_agg_func bach_model s None (AggName "max") None true (Some 1%Z)
        = Ok s1
        /\ has_aggregate_function (expression s1) = true
        /\ @max bach_model s1 None true = Raise AlreadyAggregated).
Proof.
  intros s g. split; [|split].
  - do 2 eexists. repeat split; reflexivity.
  - eexists. repeat split; reflexivity.
  - eexists. repeat split; reflexivity.
Qed.

(* ================================================================== *)
(** ** References to models *)

Lemma dict_set_keys {V : Type} (rv : list (string * V)) (key : string) (value : V) :
  forall k, In k (map fst (dict_set rv key value))
            <-> k = key \/ In k (map fst rv).
Proof.
  induction rv as [|[k0 v0] r IH]; intros k; simpl.
  - intuition.
  - destruct (String.eqb k0 key) eqn:E; simpl.
    + apply String.eqb_eq in E. subst. intuition.
    + rewrite IH. intuition.
Qed.

Lemma dict_set_NoDup {V : Type} (rv : list (string * V)) (key : string) (value : V) :
  NoDup (map fst rv) -> NoDup (map fst (dict_set rv key value)).
Proof.
  induction rv as [|[k0 v0] r IH]; intros H; simpl.
  - constructor; [intros []|constructor].
  - inversion H as [|? ? Hn Hr]; subst.
    destruct (String.eqb k0 key) eqn:E; simpl.
    + exact H.
    + constructor; [|now apply IH].
      rewrite dict_set_keys. intros [->|Hin]; [|now apply Hn].
      now rewrite String.eqb_refl in E.
Qed.

Lemma dict_set_In {V : Type} (rv : list (string * V)) (key : string) (value : V) :
  forall k v, In (k, v) (dict_set rv key value) ->
              (k = key /\ v = value) \/ In (k, v) rv.
Proof.
  induction rv as [|[k0 v0] r IH]; intros k v; simpl.
  - intros [H|[]]. injection H as <- <-. now left.
  - destruct (String.eqb k0 key) eqn:E; simpl.
    + apply String.eqb_eq in E. subst.
      intros [H|H]; [injection H as <- <-; now left|right; now right].
    + intros [H|H]; [right; now left|].
      destruct (IH k v H) as [?|?]; [now left|right; now right].
Qed.

Lemma references_agree_nil : references_agree [] [].
Proof.
  split; [constructor|]. split; intros; contradiction.
Qed.

Lemma references_agree_token (rv : list (string * SqlModel))
    (ts : list ExpressionToken) (t : ExpressionToken) :
  references_agree rv ts ->
  references_agree
    match t with
    | ModelReferenceToken m => dict_set rv (refname m) m
    | _ => rv
    end (ts ++ [t]).
Proof.
  intros [Hn [Hv Hk]].
  assert (Hother : (forall m, t <> ModelReferenceToken m) ->
                   references_agree rv (ts ++ [t])).
  { intros Ht. split; [exact Hn|]. split.
    - intros k m Hin. apply Hv in Hin as [? ?]. split; auto using in_or_app.
    - intros m Hm. apply in_app_or in Hm as [Hm|[Hm|[]]]; auto.
      now apply Ht in Hm. }
  destruct t; try (apply Hother; discriminate).
  split; [now apply dict_set_NoDup|]. split.
  - intros k m Hin. apply dict_set_In in Hin as [[-> ->]|Hin].
    + split; [reflexivity|]. apply in_or_app. right. now left.
    + apply Hv in Hin as [? ?]. split; auto using in_or_app.
  - intros m Hm. apply dict_set_keys.
    apply in_app_or in Hm as [Hm|[Hm|[]]]; [right; auto|left].
    now injection Hm as <-.
Qed.

Lemma references_agree_update (o rv : list (string * SqlModel))
    (ts ts' : list ExpressionToken) :
  references_agree rv ts -> references_agree o ts' ->
  references_agree (dict_update rv o) (ts ++ ts').
Proof.
  intros Hrv [_ [Hov Hok]].
  assert (G : forall o' rv',
             NoDup (map fst rv') ->
             (forall k m, In (k, m) rv' ->
                refname m = k /\ In (ModelReferenceToken m) (ts ++ ts')) ->
             (forall k m, In (k, m) o' ->
                refname m = k /\ In (ModelReferenceToken m) (ts ++ ts')) ->
             NoDup (map fst (dict_update rv' o'))
             /\ (forall k m, In (k, m) (dict_update rv' o') ->
                   refname m = k /\ In (ModelReferenceToken m) (ts ++ ts'))
             /\ (forall k, In k (map fst rv') \/ In k (map fst o') ->
                   In k (map fst (dict_update rv' o')))).
  { induction o' as [|[k0 m0] o' IH]; intros rv' Hn Hv Ho.
    - simpl. split; [exact Hn|]. split; [exact Hv|].
      intros k [H|[]]; exact H.
    - destruct (IH (dict_set rv' k0 m0)) as [I1 [I2 I3]].
      + now apply dict_set_NoDup.
      + intros k m Hin. apply dict_set_In in Hin as [[-> ->]|Hin]; auto.
        apply Ho. now left.
      + intros k m Hin. apply Ho. now right.
      + split; [exact I1|]. split; [exact I2|].
        intros k Hk. apply I3. rewrite dict_set_keys.
        destruct Hk as [Hk|[Hk|Hk]]; auto. }
  destruct Hrv as [Hn [Hv Hk]].
  destruct (G o rv) as [I1 [I2 I3]]; auto.
  - intros k m Hin. apply Hv in Hin as [? ?]. split; auto using in_or_app.
  - intros k m Hin. apply Hov in Hin as [? ?]. split; auto using in_or_app.
  - split; [exact I1|]. split; [exact I2|].
    intros m Hm. apply I3. apply in_app_or in Hm as [Hm|Hm]; auto.
Qed.

(** X1: the dict returned by [get_references] has each reference name once;
    each entry is a model of a ModelReferenceToken of the tree, under the
    reference name of that model; and every ModelReferenceToken of the
    tree, at any depth, has its reference name among the keys. *)
Theorem get_references_complete :
  forall e : Expression,
    NoDup (map fst (get_references e))
    /\ (forall k m, In (k, m) (get_references e) ->
          refname m = k /\ In (ModelReferenceToken m) (tokens e))
    /\ (forall m, In (ModelReferenceToken m) (tokens e) ->
          In (refname m) (map fst (get_references e))).
Proof.
  intros e. change (references_agree (get_references e) (tokens e)).
  induction e using Expression_ind2
    with (Q := fun x => match x with
                        | Tok _ => True
                        | Sub d => references_agree (get_references d) (tokens d)
                        end); auto.
  simpl.
  assert (G : forall rv ts,
             references_agree rv ts ->
             references_agree
               (fold_left
                  (fun rv data_item =>
                     match data_item with
                     | Sub d' => dict_update rv (get_references d')
                     | Tok (ModelReferenceToken m) => dict_set rv (refname m) m
                     | Tok _ => rv
                     end) d rv)
               (ts ++ flat_map tokens_item d)).
  { induction H as [|x l Hx _ IH]; intros rv ts Hrv; simpl.
    - now rewrite app_nil_r.
    - rewrite app_assoc. apply IH. destruct x as [t|d'].
      + apply (references_agree_token t) in Hrv. destruct t; exact Hrv.
      + now apply references_agree_update. }
  apply (G [] []). apply references_agree_nil.
Qed.

(** An instance of X1: a model referenced twice, once in a nested
    expression, has one entry. *)
Lemma get_references_complete_witness :
  let m := {| hash := "abc" |} in
  let e := new_Expression NonAtomic
             [Tok (ModelReferenceToken m);
              Sub (new_Expression SingleValue
                     [Tok (RawToken "x"); Tok (ModelReferenceToken m)])] in
  get_references e = [("referenceabc", m)]
  /\ In (refname m) (map fst (get_references e)).
Proof.
  intros m e. split; [reflexivity|].
  destruct (get_references_complete e) as [_ [_ H]].
  apply H. simpl. left. reflexivity.
Defined.

(* ================================================================== *)
(** ** What construction and resolution keep *)

Lemma flat_map_map {A B C : Type} (f : A -> B) (g : B -> list C) (l : list A) :
  flat_map g (map f l) = flat_map (fun x => g (f x)) l.
Proof.
  induction l as [|x l IH]; simpl; [reflexivity|]. now rewrite IH.
Qed.

Lemma flat_map_ext_Forall {A B : Type} (f g : A -> list B) (l : list A) :
  Forall (fun x => f x = g x) l -> flat_map f l = flat_map g l.
Proof.
  induction 1 as [|x l Hx _ IH]; simpl; [reflexivity|]. now rewrite Hx, IH.
Qed.

Lemma existsb_ext_Forall {A : Type} (p q : A -> bool) (l : list A) :
  Forall (fun x => p x = q x) l -> existsb p l = existsb q l.
Proof.
  induction 1 as [|x l Hx _ IH]; simpl; [reflexivity|]. now rewrite Hx, IH.
Qed.

Lemma existsb_of_map {A B : Type} (f : A -> B) (p : B -> bool) (l : list A) :
  existsb p (map f l) = existsb (fun x => p (f x)) l.
Proof.
  induction l as [|x l IH]; simpl; [reflexivity|]. now rewrite IH.
Qed.

Lemma fold_left_map_ext {A B : Type} (f : B -> A -> B) (g : A -> A) (l : list A) :
  Forall (fun x => forall b, f b (g x) = f b x) l ->
  forall b, fold_left f (map g l) b = fold_left f l b.
Proof.
  induction 1 as [|x l Hx _ IH]; intros b; simpl; [reflexivity|].
  now rewrite Hx, IH.
Qed.

Section Preservation.
Context {U : SqlUtil}.

Lemma well_formed_item_resolve (x : Element) (table_name : option string) :
  well_formed_item x = true -> splice (resolve_item x table_name) = [resolve_item x table_name].
Proof.
  destruct x as [t|[c d]]; simpl.
  - intros _. destruct t; reflexivity.
  - destruct c; simpl; intros H; try reflexivity; discriminate.
Qed.

(** On a well-formed expression resolution works element by element. *)
Lemma resolve_well_formed_data (c : ExprClass) (d : list Element)
    (table_name : option string) :
  well_formed (Expr c d) = true ->
  resolve_column_references (Expr c d) table_name
  = Expr c (map (fun x => resolve_item x table_name) d).
Proof.
  intros H. rewrite resolve_column_references_eq. unfold new_Expression.
  f_equal. simpl in H. rewrite forallb_forall in H.
  induction d as [|x d IH]; simpl; [reflexivity|].
  rewrite well_formed_item_resolve by (apply H; now left).
  simpl. f_equal. apply IH. intros y Hy. apply H. now right.
Qed.

Lemma well_formed_item_Forall (c : ExprClass) (d : list Element)
    (Q : Element -> Prop) :
  well_formed (Expr c d) = true ->
  Forall (fun x => well_formed_item x = true -> Q x) d -> Forall Q d.
Proof.
  simpl. rewrite forallb_forall. intros Hwf H.
  rewrite Forall_forall in *. intros x Hx. apply H; auto.
Qed.

Lemma resolve_keeps_flags (e : Expression) :
  well_formed e = true ->
  forall table_name,
    is_constant (resolve_column_references e table_name) = is_constant e
    /\ is_single_value (resolve_column_references e table_name) = is_single_value e
    /\ has_aggregate_function (resolve_column_references e table_name)
       = has_aggregate_function e
    /\ has_windowed_aggregate_function (resolve_column_references e table_name)
       = has_windowed_aggregate_function e
    /\ get_references (resolve_column_references e table_name) = get_references e.
Proof.
  induction e using Expression_ind2
    with (Q := fun x =>
                 well_formed_item x = true ->
                 forall table_name,
                   is_constant_item (resolve_item x table_name) = is_constant_item x
                   /\ is_single_value_item (resolve_item x table_name)
                      = is_single_value_item x
                   /\ has_aggregate_function_item (resolve_item x table_name)
                      = has_aggregate_function_item x
                   /\ has_windowed_aggregate_function_item (resolve_item x table_name)
                      = has_windowed_aggregate_function_item x
                   /\ (forall rv,
                         match resolve_item x table_name with
                         | Sub d' => dict_update rv (get_references d')
                         | Tok (ModelReferenceToken m) => dict_set rv (refname m) m
                         | Tok _ => rv
                         end
                         = match x with
                           | Sub d' => dict_update rv (get_references d')
                           | Tok (ModelReferenceToken m) => dict_set rv (refname m) m
                           | Tok _ => rv
                           end)).
  - intros Hwf table_name.
    rewrite resolve_well_formed_data by exact Hwf.
    pose proof (@well_formed_item_Forall c d _ Hwf H) as HF. clear H.
    assert (H1 : flat_map is_constant_item (map (fun x => resolve_item x table_name) d)
                 = flat_map is_constant_item d).
    { rewrite flat_map_map. apply flat_map_ext_Forall.
      eapply Forall_impl; [|exact HF]. intros x Hx. apply (Hx table_name). }
    assert (H2 : flat_map is_single_value_item
                   (map (fun x => resolve_item x table_name) d)
                 = flat_map is_single_value_item d).
    { rewrite flat_map_map. apply flat_map_ext_Forall.
      eapply Forall_impl; [|exact HF]. intros x Hx. apply (Hx table_name). }
    assert (H3 : existsb has_aggregate_function_item
                   (map (fun x => resolve_item x table_name) d)
                 = existsb has_aggregate_function_item d).
    { rewrite existsb_of_map. apply existsb_ext_Forall.
      eapply Forall_impl; [|exact HF]. intros x Hx. apply (Hx table_name). }
    assert (H4 : existsb has_windowed_aggregate_function_item
                   (map (fun x => resolve_item x table_name) d)
                 = existsb has_windowed_aggregate_function_item d).
    { rewrite existsb_of_map. apply existsb_ext_Forall.
      eapply Forall_impl; [|exact HF]. intros x Hx. apply (Hx table_name). }
    split; [|split; [|split; [|split]]].
    + destruct c; simpl; rewrite ?H1; reflexivity.
    + destruct c; simpl; rewrite ?H2; reflexivity.
    + destruct c; simpl; rewrite ?H3; reflexivity.
    + destruct c; simpl; rewrite ?H4; reflexivity.
    + simpl. apply fold_left_map_ext.
      eapply Forall_impl; [|exact HF]. intros x Hx rv. apply (Hx table_name).
  - intros _ table_name. rewrite resolve_item_Tok.
    destruct t; simpl; repeat split; reflexivity.
  - intros Hwf table_name. simpl in Hwf.
    apply andb_true_iff in Hwf as [_ Hwf].
    destruct (IHe Hwf table_name) as [H1 [H2 [H3 [H4 H5]]]].
    simpl. rewrite H1, H2, H3, H4, H5. repeat split; reflexivity.
Qed.

(** X2: on a well-formed expression (one without a base-class Expression
    among its elements, as the constructor makes them),
    [resolve_column_references] keeps the class, the flags is_constant,
    is_single_value, is_independent_subquery and has_aggregate_function,
    and the referenced models; the result is well-formed again. *)
Theorem resolve_column_references_keeps_flags :
  forall (e : Expression) (table_name : option string),
    well_formed e = true ->
    cls_of (resolve_column_references e table_name) = cls_of e
    /\ is_constant (resolve_column_references e table_name) = is_constant e
    /\ is_single_value (resolve_column_references e table_name) = is_single_value e
    /\ is_independent_subquery (resolve_column_references e table_name)
       = is_independent_subquery e
    /\ has_aggregate_function (resolve_column_references e table_name)
       = has_aggregate_function e
    /\ get_references (resolve_column_references e table_name) = get_references e
    /\ well_formed (resolve_column_references e table_name) = true.
Proof.
  intros e table_name Hwf.
  destruct (resolve_keeps_flags e Hwf table_name) as [H1 [H2 [H3 [_ H5]]]].
  split; [apply resolve_cls|]. split; [exact H1|]. split; [exact H2|].
  split; [unfold is_independent_subquery; now rewrite resolve_cls|].
  split; [exact H3|]. split; [exact H5|]. apply resolve_well_formed.
Qed.

End Preservation.

(** An instance of X2: the sum of a column and a constant. *)
Lemma resolve_column_references_keeps_flags_witness :
  let e := new_Expression NonAtomic
             [Tok (ColumnReferenceToken "x"); Tok (RawToken " + ");
              Sub (new_Expression ConstValue [Tok (RawToken "1")])] in
  has_column_reference e = true
  /\ is_constant (@resolve_column_references sql_models e (Some "t")) = is_constant e
  /\ cls_of (@resolve_column_references sql_models e (Some "t")) = NonAtomic.
Proof.
  intros e.
  destruct (@resolve_column_references_keeps_flags sql_models e (Some "t") eq_refl)
    as [H1 [H2 _]].
  split; [reflexivity|]. split; [exact H2|exact H1].
Defined.

(* ================================================================== *)
(** ** More on templated construction *)

Lemma construct_inv (cls : ExprClass) (fmt : string) (args : list Expression)
    (e : Expression) :
  construct cls fmt args = Ok e ->
  length args = length (split_fmt fmt) - 1
  /\ e = new_Expression cls (construct_elements (split_fmt fmt) args).
Proof.
  intros H.
  destruct (Nat.eq_dec (length args) (length (split_fmt fmt) - 1)) as [Hl|Hl].
  - rewrite construct_ok in H by exact Hl. injection H as <-. now split.
  - rewrite construct_mismatch in H by exact Hl. discriminate.
Qed.

Lemma weave_tail_In {A : Type} (pieces operands : list (list A)) (x : A) :
  In x (weave_tail (@app A) [] pieces operands) ->
  (exists p, In p pieces /\ In x p) \/ (exists o, In o operands /\ In x o).
Proof.
  revert operands. induction pieces as [|p ps IH]; intros [|o os]; simpl;
    try contradiction.
  intros H. apply in_app_or in H as [H|H].
  - right. exists o. split; [now left|exact H].
  - apply in_app_or in H as [H|H].
    + left. exists p. split; [now left|exact H].
    + destruct (IH os H) as [[q [Hq Hx]]|[q [Hq Hx]]].
      * left. exists q. split; [now right|exact Hx].
      * right. exists q. split; [now right|exact Hx].
Qed.

Lemma weave_list_In {A : Type} (pieces operands : list (list A)) (x : A) :
  In x (weave_list pieces operands) ->
  (exists p, In p pieces /\ In x p) \/ (exists o, In o operands /\ In x o).
Proof.
  unfold weave_list, weave. destruct pieces as [|p ps]; [contradiction|].
  intros H. apply in_app_or in H as [H|H].
  - left. exists p. split; [now left|exact H].
  - destruct (weave_tail_In ps operands x H) as [[q [Hq Hx]]|[q [Hq Hx]]].
    + left. exists q. split; [now right|exact Hx].
    + right. exact (ex_intro _ q (conj Hq Hx)).
Qed.

(** Every element of a constructed expression, before flattening, is a Raw
    token or an operand. *)
Lemma construct_elements_In (pieces : list string) (args : list Expression)
    (x : Element) :
  In x (construct_elements pieces args) ->
  (exists s, x = Tok (RawToken s)) \/ (exists a, In a args /\ x = Sub a).
Proof.
  intros H. apply weave_list_In in H as [[p [Hp Hx]]|[o [Ho Hx]]].
  - apply in_map_iff in Hp as [s [<- _]]. unfold text_elements in Hx.
    destruct (String.eqb s EmptyString); [contradiction|].
    destruct Hx as [<-|[]]. left. now exists s.
  - apply in_map_iff in Ho as [a [<- Ha]]. unfold operand_elements in Hx.
    destruct (is_NonAtomic a); simpl in Hx.
    + destruct Hx as [<-|[<-|[<-|[]]]].
      * left. now exists "(".
      * right. now exists a.
      * left. now exists ")".
    + destruct Hx as [<-|[]]. right. now exists a.
Qed.

(** X3: [construct] keeps the invariant of the constructor: from
    well-formed operands (no base-class Expression among their elements)
    it makes a well-formed expression, whatever the template and the
    class; so does [Expression(e)] from a well-formed [e]. *)
Theorem construct_well_formed :
  forall (cls : ExprClass) (fmt : string) (args : list Expression) (e : Expression),
    Forall (fun a => well_formed a = true) args ->
    construct cls fmt args = Ok e ->
    well_formed e = true
    /\ (forall c a, In a args -> well_formed (new_Expression_of c a) = true).
Proof.
  intros cls fmt args e Hargs H.
  apply construct_inv in H as [_ ->].
  rewrite Forall_forall in Hargs. split.
  - apply new_Expression_well_formed, Forall_forall. intros x Hx.
    apply construct_elements_In in Hx as [[s ->]|[a [Ha ->]]]; auto.
  - intros c a Ha. unfold new_Expression_of.
    apply new_Expression_well_formed, Forall_forall. intros x Hx.
    specialize (Hargs a Ha). destruct a as [k d]. simpl in *.
    rewrite forallb_forall in Hargs. specialize (Hargs x Hx).
    destruct x as [t|d']; [exact I|].
    simpl in Hargs. now apply andb_true_iff in Hargs as [_ ?].
Qed.

(** An instance of X3: a product whose first operand is a plain sum. *)
Lemma construct_well_formed_witness :
  exists e,
    construct NonAtomic "{} * {}"
      [Expr Plain [Tok (ColumnReferenceToken "a"); Tok (RawToken " + 1")];
       Expr SingleValue [Tok (RawToken "2")]] = Ok e
    /\ well_formed e = true.
Proof.
  eexists. split; [reflexivity|].
  apply (@construct_well_formed NonAtomic "{} * {}"
           [Expr Plain [Tok (ColumnReferenceToken "a"); Tok (RawToken " + 1")];
            Expr SingleValue [Tok (RawToken "2")]] _).
  - repeat constructor.
  - reflexivity.
Defined.

(** X4: [construct] returns exactly when the number of operands is the
    number of markers of the template, and otherwise raises the ValueError
    of the marker count; indexing the operands never fails.  The pieces of
    text that the markers separate, joined by the marker, are the
    template. *)
Theorem construct_result :
  forall (cls : ExprClass) (fmt : string) (args : list Expression),
    String.concat "{}" (split_fmt fmt) = fmt
    /\ match construct cls fmt args with
       | Ok e => length args = length (split_fmt fmt) - 1 /\ cls_of e = cls
       | Raise err => length args <> length (split_fmt fmt) - 1
                      /\ err = PlaceholderCountMismatch
                      /\ exception_class err = ValueError
       end.
Proof.
  intros cls fmt args. split; [apply split_fmt_join|].
  destruct (Nat.eq_dec (length args) (length (split_fmt fmt) - 1)) as [Hl|Hl].
  - rewrite construct_ok by exact Hl. now split.
  - rewrite construct_mismatch by exact Hl. now repeat split.
Qed.

(* ------------------------------------------------------------------ *)
(** *** Flags of a constructed expression *)

Lemma weave_tail_unit_pieces {A : Type} (app : A -> A -> A) (unit : A)
    (pieces operands : list A) :
  (forall x, app unit x = x) ->
  Forall (fun p => p = unit) pieces ->
  length operands = length pieces ->
  weave_tail app unit pieces operands = fold_right app unit operands.
Proof.
  intros Hu Hp. revert operands.
  induction Hp as [|p ps -> _ IH]; intros [|o os] Hl; simpl in *;
    try reflexivity; try discriminate.
  rewrite Hu, IH; auto.
Qed.

Lemma weave_unit_pieces {A : Type} (app : A -> A -> A) (unit : A)
    (pieces operands : list A) :
  (forall x, app unit x = x) ->
  Forall (fun p => p = unit) pieces ->
  pieces <> [] ->
  length operands = length pieces - 1 ->
  weave app unit pieces operands = fold_right app unit operands.
Proof.
  intros Hu Hp Hne Hl. destruct pieces as [|p ps]; [congruence|].
  inversion Hp as [|? ? -> Hps]; subst. simpl in *.
  rewrite Nat.sub_0_r in Hl. rewrite Hu.
  now apply weave_tail_unit_pieces.
Qed.

Lemma has_aggregate_function_new (cls : ExprClass) (l : list Element) :
  has_aggregate_function (new_Expression cls l)
  = match cls with
    | AggregateFunction => true
    | _ => existsb has_aggregate_function_item l
    end.
Proof.
  unfold new_Expression.
  assert (H : existsb has_aggregate_function_item (flat_map splice l)
              = existsb has_aggregate_function_item l).
  { rewrite existsb_flat_map. apply existsb_ext.
    intros x. apply has_aggregate_function_splice. }
  destruct cls; simpl; rewrite ?H; reflexivity.
Qed.

Lemma sub_expressions_app (l1 l2 : list Element) :
  sub_expressions (l1 ++ l2) = sub_expressions l1 ++ sub_expressions l2.
Proof. unfold sub_expressions. apply flat_map_app. Qed.

Lemma fold_right_orb_existsb {A : Type} (p : A -> bool) (l : list A) :
  fold_right orb false (map p l) = existsb p l.
Proof. induction l as [|x l IH]; simpl; [reflexivity|]. now rewrite IH. Qed.

Lemma fold_right_app_flat_map {A B : Type} (f : A -> list B) (l : list A) :
  fold_right (@app B) [] (map f l) = flat_map f l.
Proof. induction l as [|x l IH]; simpl; [reflexivity|]. now rewrite IH. Qed.

Lemma has_aggregate_function_construct_elements (pieces : list string)
    (args : list Expression) :
  pieces <> [] -> length args = length pieces - 1 ->
  existsb has_aggregate_function_item (construct_elements pieces args)
  = existsb has_aggregate_function args.
Proof.
  intros Hne Hl. unfold construct_elements, weave_list.
  rewrite (@weave_hom _ _ (@app Element) [] orb false
             (existsb has_aggregate_function_item)).
  - rewrite !map_map, weave_unit_pieces.
    + rewrite <- fold_right_orb_existsb. f_equal. apply map_ext.
      intros a. unfold operand_elements.
      destruct (is_NonAtomic a); simpl; now rewrite orb_false_r.
    + reflexivity.
    + apply Forall_forall. intros b Hb. apply in_map_iff in Hb as [s [<- _]].
      unfold text_elements. destruct (String.eqb s EmptyString); reflexivity.
    + destruct pieces; [congruence|discriminate].
    + now rewrite !length_map.
  - reflexivity.
  - intros x y. apply existsb_app.
Qed.

Lemma sub_expressions_construct_elements (cls : ExprClass) (pieces : list string)
    (args : list Expression) :
  pieces <> [] -> length args = length pieces - 1 ->
  sub_expressions (data (new_Expression cls (construct_elements pieces args)))
  = flat_map operand_children args.
Proof.
  intros Hne Hl. unfold new_Expression, construct_elements, weave_list. simpl.
  rewrite (@weave_hom _ _ (@app Element) [] (@app Expression) []
             (fun l => sub_expressions (flat_map splice l))).
  - rewrite !map_map, weave_unit_pieces.
    + rewrite <- fold_right_app_flat_map. f_equal. apply map_ext.
      intros a. unfold operand_elements, operand_children, is_NonAtomic, is_plain.
      destruct a as [c d]. destruct c; simpl; rewrite ?app_nil_r; reflexivity.
    + reflexivity.
    + apply Forall_forall. intros b Hb. apply in_map_iff in Hb as [s [<- _]].
      unfold text_elements. destruct (String.eqb s EmptyString); reflexivity.
    + destruct pieces; [congruence|discriminate].
    + now rewrite !length_map.
  - reflexivity.
  - intros x y. now rewrite flat_map_app, sub_expressions_app.
Qed.

(** X5: an expression made by [construct] has an aggregate function exactly
    when it is made as an AggregateFunction expression or one of its
    operands has an aggregate function: the flag of an operand is never
    lost in a template, whatever the class of the operand. *)
Theorem construct_has_aggregate_function :
  forall (cls : ExprClass) (fmt : string) (args : list Expression) (e : Expression),
    construct cls fmt args = Ok e ->
    has_aggregate_function e
    = match cls with
      | AggregateFunction => true
      | _ => existsb has_aggregate_function args
      end.
Proof.
  intros cls fmt args e H. apply construct_inv in H as [Hl ->].
  rewrite has_aggregate_function_new.
  rewrite has_aggregate_function_construct_elements;
    auto using split_fmt_nonempty.
Qed.

(** An instance of X5: a conditional over a count. *)
Lemma construct_has_aggregate_function_witness :
  exists e,
    construct Plain "CASE WHEN {} >= 1 THEN {} ELSE NULL END"
      [Expr SingleValue [Tok (RawToken "1")];
       Expr AggregateFunction [Tok (RawToken "count(x)")]] = Ok e
    /\ has_aggregate_function e = true.
Proof.
  eexists. split; [reflexivity|].
  rewrite (@construct_has_aggregate_function Plain
             "CASE WHEN {} >= 1 THEN {} ELSE NULL END"
             [Expr SingleValue [Tok (RawToken "1")];
              Expr AggregateFunction [Tok (RawToken "count(x)")]] _ eq_refl).
  reflexivity.
Defined.

(** X6: for a class that does not override the flag, an expression made by
    [construct] is constant exactly when the operands bring at least one
    child Expression and all those children are constant, where an operand
    of the base class brings its own child Expressions, being spliced, and
    any other operand brings itself.  The template text and the tokens of
    a base-class operand do not count: a column reference combined with a
    constant is reported constant.  [is_single_value] follows the same
    rule. *)
Theorem construct_is_constant :
  forall (cls : ExprClass) (fmt : string) (args : list Expression) (e : Expression),
    construct cls fmt args = Ok e ->
    (cls <> ConstValue ->
     is_constant e
     = nonempty_and_all (map is_constant (flat_map operand_children args)))
    /\ (cls <> SingleValue -> cls <> ConstValue ->
        is_single_value e
        = nonempty_and_all (map is_single_value (flat_map operand_children args))).
Proof.
  intros cls fmt args e H. apply construct_inv in H as [Hl ->].
  pose proof (@sub_expressions_construct_elements cls (split_fmt fmt) args
                (split_fmt_nonempty fmt) Hl) as Hs.
  unfold new_Expression in *. simpl in Hs. split.
  - intros Hc. now rewrite is_constant_base, Hs.
  - intros H1 H2. now rewrite is_single_value_base, Hs.
Qed.

(** An instance of X6: the sum of a column reference and a constant is
    reported constant; the sum of two column references is not. *)
Lemma construct_is_constant_witness :
  (exists e,
     construct NonAtomic "{} + {}"
       [column_reference Plain "x";
        new_Expression_of ConstValue (raw Plain "1")] = Ok e
     /\ is_constant e = true)
  /\ (exists e,
        construct NonAtomic "{} + {}"
          [column_reference Plain "x"; column_reference Plain "y"] = Ok e
        /\ is_constant e = false).
Proof.
  split; eexists; (split; [reflexivity|]).
  - destruct (@construct_is_constant NonAtomic "{} + {}"
                [column_reference Plain "x";
                 new_Expression_of ConstValue (raw Plain "1")] _ eq_refl)
      as [H _].
    rewrite H by discriminate. reflexivity.
  - destruct (@construct_is_constant NonAtomic "{} + {}"
                [column_reference Plain "x"; column_reference Plain "y"] _ eq_refl)
      as [H _].
    rewrite H by discriminate. reflexivity.
Defined.

(* ================================================================== *)
(** ** Aggregate tokens, equality and table names *)

Lemma existsb_tokens_flat_map (p : ExpressionToken -> bool) (d : list Element) :
  existsb p (flat_map tokens_item d)
  = existsb (fun x => existsb p (tokens_item x)) d.
Proof. apply existsb_flat_map. Qed.

(** X7: as the docstring of [has_aggregate_function] says, an expression
    without a node of the AggregateFunction class has an aggregate function
    exactly when there is an AggFunctionRawToken among its tokens, at any
    depth. *)
Theorem has_aggregate_function_tokens :
  forall e : Expression,
    has_AggregateFunction_class e = false ->
    has_aggregate_function e = existsb is_agg_function_raw (tokens e).
Proof.
  induction e using Expression_ind2
    with (Q := fun x => has_AggregateFunction_class_item x = false ->
                        has_aggregate_function_item x
                        = existsb is_agg_function_raw (tokens_item x)).
  - intros Hc.
    assert (Hd : existsb has_AggregateFunction_class_item d = false).
    { destruct c; simpl in Hc; try exact Hc; discriminate. }
    assert (G : existsb has_aggregate_function_item d
                = existsb is_agg_function_raw (flat_map tokens_item d)).
    { rewrite existsb_tokens_flat_map. apply existsb_ext_Forall.
      rewrite Forall_forall in *. intros x Hx. apply H; auto.
      destruct (has_AggregateFunction_class_item x) eqn:E; [|reflexivity].
      rewrite <- Hd. symmetry. apply existsb_exists. now exists x. }
    destruct c; simpl in *; try exact G. discriminate.
  - intros _. destruct t; reflexivity.
  - intros Hc. simpl in *. now apply IHe.
Qed.

(** An instance of X7: an aggregate token below a SingleValue node. *)
Lemma has_aggregate_function_tokens_witness :
  let e := new_Expression NonAtomic
             [Sub (agg_function_raw SingleValue "count(*)"); Tok (RawToken " + 1")] in
  has_aggregate_function e = true.
Proof.
  intros e. rewrite (has_aggregate_function_tokens e eq_refl). reflexivity.
Defined.

Section EqualityFacts.
Context {U : SqlUtil}.

Lemma tokens_erase_classes (e : Expression) :
  tokens (erase_classes e) = tokens e.
Proof.
  induction e using Expression_ind2
    with (Q := fun x => tokens_item (erase_item x) = tokens_item x);
    try reflexivity; [|exact IHe].
  simpl. rewrite flat_map_map. apply flat_map_ext_Forall. exact H.
Qed.

Lemma sql_text_erase_classes (e : Expression) :
  forall table_name,
    sql_text table_name (erase_classes e) = sql_text table_name e.
Proof.
  induction e using Expression_ind2
    with (Q := fun x => forall table_name,
                 sql_item table_name (erase_item x) = sql_item table_name x).
  - intros table_name. simpl. rewrite map_map. f_equal.
    apply map_ext_in. intros x Hx. rewrite Forall_forall in H. now apply H.
  - reflexivity.
  - intros table_name. simpl. apply IHe.
Qed.

(** X8: the equality of expressions is an equivalence relation, and equal
    expressions have the same tokens and the same SQL, for every table
    name. *)
Theorem Expression_eqb_equivalence :
  (forall a, Expression_eqb a a = true)
  /\ (forall a b, Expression_eqb a b = Expression_eqb b a)
  /\ (forall a b c, Expression_eqb a b = true -> Expression_eqb b c = true ->
                    Expression_eqb a c = true)
  /\ (forall a b table_name,
        Expression_eqb a b = true ->
        tokens a = tokens b /\ to_sql a table_name = to_sql b table_name).
Proof.
  split; [apply Expression_eqb_refl|]. split; [|split].
  - intros a b.
    destruct (Expression_eqb a b) eqn:E1, (Expression_eqb b a) eqn:E2;
      try reflexivity.
    + apply Expression_eqb_erase in E1. symmetry in E1.
      apply Expression_eqb_erase in E1. congruence.
    + apply Expression_eqb_erase in E2. symmetry in E2.
      apply Expression_eqb_erase in E2. congruence.
  - intros a b c H1 H2. apply Expression_eqb_erase in H1, H2.
    apply Expression_eqb_erase. congruence.
  - intros a b table_name H. apply Expression_eqb_erase in H. split.
    + now rewrite <- (tokens_erase_classes a), H, tokens_erase_classes.
    + rewrite !to_sql_ok.
      now rewrite <- (sql_text_erase_classes a), H, sql_text_erase_classes.
Qed.

Lemma sql_token_no_column_reference (t : ExpressionToken)
    (table_name table_name' : option string) :
  is_column_reference t = false ->
  sql_token table_name t = sql_token table_name' t.
Proof. destruct t; simpl; intros H; try reflexivity; discriminate. Qed.

Lemma sql_text_table_name (e : Expression) :
  has_column_reference e = false ->
  forall table_name table_name',
    sql_text table_name e = sql_text table_name' e.
Proof.
  induction e using Expression_ind2
    with (Q := fun x => has_column_reference_item x = false ->
                        forall table_name table_name',
                          sql_item table_name x = sql_item table_name' x).
  - intros Hc table_name table_name'. simpl. f_equal.
    apply map_ext_in. intros x Hx. rewrite Forall_forall in H.
    apply H; auto. simpl in Hc.
    destruct (has_column_reference_item x) eqn:E; [|reflexivity].
    rewrite <- Hc. symmetry. apply existsb_exists. now exists x.
  - intros Hc table_name table_name'. now apply sql_token_no_column_reference.
  - intros Hc table_name table_name'. simpl in *. now apply IHe.
Qed.

Lemma sql_text_empty_table_name (e : Expression) :
  sql_text (Some EmptyString) e = sql_text None e.
Proof.
  induction e using Expression_ind2
    with (Q := fun x => sql_item (Some EmptyString) x = sql_item None x).
  - simpl. f_equal. apply map_ext_in. intros x Hx.
    rewrite Forall_forall in H. now apply H.
  - destruct t; reflexivity.
  - exact IHe.
Qed.

(** X9: the table name given to [to_sql] matters only for column
    references: an expression without ColumnReference tokens has the same
    SQL for every table name; and an empty table name is like none, the
    column references are not qualified. *)
Theorem to_sql_table_name :
  forall e : Expression,
    (has_column_reference e = false ->
     forall table_name table_name',
       to_sql e table_name = to_sql e table_name')
    /\ to_sql e (Some EmptyString) = to_sql e None.
Proof.
  intros e. split.
  - intros Hc table_name table_name'. rewrite !to_sql_ok.
    f_equal. now apply sql_text_table_name.
  - rewrite !to_sql_ok. f_equal. apply sql_text_empty_table_name.
Qed.

End EqualityFacts.

(** An instance of X8: a Const expression and a plain one with the same
    token render alike. *)
Lemma Expression_eqb_equivalence_witness :
  @to_sql sql_models (new_Expression_of ConstValue (raw Plain "1")) (Some "t")
  = @to_sql sql_models (raw Plain "1") (Some "t").
Proof.
  destruct (@Expression_eqb_equivalence sql_models) as [_ [_ [_ H]]].
  apply (H (new_Expression_of ConstValue (raw Plain "1")) (raw Plain "1") (Some "t")).
  reflexivity.
Defined.

(** An instance of X9: a resolved expression renders alike under any table
    name. *)
Lemma to_sql_table_name_witness :
  @to_sql sql_models (string_value Plain "it's") (Some "t")
  = @to_sql sql_models (string_value Plain "it's") None.
Proof.
  destruct (@to_sql_table_name sql_models (string_value Plain "it's")) as [H _].
  apply H. reflexivity.
Defined.

(* ================================================================== *)
(** ** Sorting, column expressions and null tests *)

(** X10: [sort_values] returns a Series sorted as asked and otherwise equal
    to the Series given; sorting again in the same direction changes
    nothing, and of two calls in a row the last one decides: the result is
    that of the last call alone. *)
Theorem sort_values_last_wins :
  forall {B : BachEnv} (self : Series) (a b : bool),
    exists r,
      sort_values self a = Ok r
      /\ r = mkSeries (dtype self) (engine self) (base_node self) (index self)
               (name self) (expression self) (group_by self) (Some a)
      /\ sort_values r a = Ok r
      /\ (r' <- sort_values self a ;; sort_values r' b) = sort_values self b.
Proof.
  intros B [dt en bn ix nm ex gb so] a b. unfold sort_values. simpl.
  destruct so as [s|]; [destruct s, a, b|destruct a, b]; simpl;
    eexists; repeat split; reflexivity.
Qed.

Lemma nonempty_and_all_single (b : bool) : nonempty_and_all [b] = b.
Proof. destruct b; reflexivity. Qed.

Lemma operand_children_constant (a : Expression) :
  nonempty_and_all (map is_constant (operand_children a)) = is_constant a.
Proof.
  unfold operand_children, is_plain. destruct a as [c d].
  destruct c; cbn [cls_of data map]; try apply nonempty_and_all_single.
  simpl. now rewrite is_constant_items.
Qed.

Lemma operand_children_single_value (a : Expression) :
  nonempty_and_all (map is_single_value (operand_children a)) = is_single_value a.
Proof.
  unfold operand_children, is_plain. destruct a as [c d].
  destruct c; cbn [cls_of data map]; try apply nonempty_and_all_single.
  simpl. now rewrite is_single_value_items.
Qed.

(** The expression of a template with one operand, made as a NonAtomic
    expression: its flags are those of the operand. *)
Lemma construct_unary_flags (fmt : string) (a : Expression) :
  length (split_fmt fmt) = 2 ->
  let e := new_Expression NonAtomic (construct_elements (split_fmt fmt) [a]) in
  construct NonAtomic fmt [a] = Ok e
  /\ is_constant e = is_constant a
  /\ is_single_value e = is_single_value a
  /\ has_aggregate_function e = has_aggregate_function a.
Proof.
  intros Hl e.
  assert (Hlen : length [a] = length (split_fmt fmt) - 1) by now rewrite Hl.
  pose proof (@sub_expressions_construct_elements NonAtomic (split_fmt fmt) [a]
                (split_fmt_nonempty fmt) Hlen) as Hs.
  simpl in Hs. rewrite app_nil_r in Hs.
  split; [now apply construct_ok|]. subst e. unfold new_Expression in *.
  split; [|split].
  - rewrite is_constant_base by discriminate. simpl in Hs. rewrite Hs.
    apply operand_children_constant.
  - rewrite is_single_value_base by discriminate. simpl in Hs. rewrite Hs.
    apply operand_children_single_value.
  - change (has_aggregate_function
              (new_Expression NonAtomic (construct_elements (split_fmt fmt) [a]))
            = has_aggregate_function a).
    rewrite has_aggregate_function_new,
      has_aggregate_function_construct_elements;
      auto using split_fmt_nonempty.
    simpl. apply orb_false_r.
Qed.

Lemma null_test (B : BachEnv) (self : Series) (fmt text k : string)
    (table_name : option string) :
  split_fmt fmt = [EmptyString; text] ->
  no_brace text = true ->
  get_series_type_from_dtype "bool" = Ok k ->
  exists r,
    (expression <- construct NonAtomic fmt [expression self] ;;
     copy_override self (Some "bool") None None None None (Some expression)
       None None) = Ok r
    /\ dtype r = k
    /\ cls_of (expression r) = NonAtomic
    /\ @to_sql sql_models (expression r) table_name
       = Ok (parenthesized (expression self)
               (@sql_text sql_models table_name (expression self)) ++ text)%string
    /\ is_constant (expression r) = is_constant (expression self)
    /\ is_single_value (expression r) = is_single_value (expression self)
    /\ has_aggregate_function (expression r)
       = has_aggregate_function (expression self)
    /\ index r = index self
    /\ group_by r = group_by self
    /\ base_node r = base_node self
    /\ name r = name self.
Proof.
  intros Hfmt Hnb Hk.
  assert (Hl : length (split_fmt fmt) = 2) by now rewrite Hfmt.
  destruct (construct_unary_flags fmt (expression self) Hl) as [Hc [H1 [H2 H3]]].
  rewrite Hc. simpl bind. unfold copy_override. rewrite Hk. simpl bind.
  eexists. split; [reflexivity|]. simpl.
  split; [reflexivity|]. split; [reflexivity|].
  split.
  { rewrite to_sql_ok, sql_text_construct_elements, Hfmt.
    unfold weave_str, operand_elements, parenthesized, text_elements, join,
      is_NonAtomic.
    cbn [map weave weave_tail].
    destruct (String.eqb text EmptyString) eqn:Et.
    - apply String.eqb_eq in Et. subst text.
      destruct (cls_of (expression self)); simpl;
        now rewrite ?string_app_nil_r.
    - pose proof (escape_no_brace text Hnb) as He.
      destruct (cls_of (expression self)); simpl; simpl in He;
        rewrite He, ?string_app_nil_r, ?string_app_assoc; reflexivity. }
  repeat split; assumption.
Qed.

(** X11: when the dtype [bool] is registered, [isnull] and [notnull] return
    a Series of that dtype with the index, group_by, base_node and name of
    the Series given; its expression is NonAtomic, renders as the SQL of
    the original expression (in parentheses if that one is NonAtomic)
    followed by [is null] or [is not null], and is constant, single-valued
    and aggregated exactly when the original expression is. *)
Theorem isnull_notnull :
  forall {B : BachEnv} (self : Series) (k : string) (table_name : option string),
    get_series_type_from_dtype "bool" = Ok k ->
    (exists r,
       isnull self = Ok r
       /\ dtype r = k
       /\ cls_of (expression r) = NonAtomic
       /\ @to_sql sql_models (expression r) table_name
          = Ok (parenthesized (expression self)
                  (@sql_text sql_models table_name (expression self))
                ++ " is null")%string
       /\ is_constant (expression r) = is_constant (expression self)
       /\ is_single_value (expression r) = is_single_value (expression self)
       /\ has_aggregate_function (expression r)
          = has_aggregate_function (expression self)
       /\ index r = index self
       /\ group_by r = group_by self
       /\ base_node r = base_node self
       /\ name r = name self)
    /\ (exists r,
          notnull self = Ok r
          /\ dtype r = k
          /\ cls_of (expression r) = NonAtomic
          /\ @to_sql sql_models (expression r) table_name
             = Ok (parenthesized (expression self)
                     (@sql_text sql_models table_name (expression self))
                   ++ " is not null")%string
          /\ is_constant (expression r) = is_constant (expression self)
          /\ is_single_value (expression r) = is_single_value (expression self)
          /\ has_aggregate_function (expression r)
             = has_aggregate_function (expression self)
          /\ index r = index self
          /\ group_by r = group_by self
          /\ base_node r = base_node self
          /\ name r = name self).
Proof.
  intros B self k table_name Hk. split.
  - apply (@null_test B self "{} is null" " is null" k table_name);
      auto; reflexivity.
  - apply (@null_test B self "{} is not null" " is not null" k table_name);
      auto; reflexivity.
Qed.

(** An instance of X11: the null test of a sum. *)
Lemma isnull_notnull_witness :
  exists r,
    @isnull bach_model
      (mkSeries "int64" "engine" {| hash := "base" |} [] "s"
         (Expr NonAtomic [Tok (RawToken "a + b")]) None None) = Ok r
    /\ dtype r = "bool"
    /\ @to_sql sql_models (expression r) None = Ok "(a + b) is null".
Proof.
  destruct (@isnull_notnull bach_model
              (mkSeries "int64" "engine" {| hash := "base" |} [] "s"
                 (Expr NonAtomic [Tok (RawToken "a + b")]) None None)
              "bool" None eq_refl)
    as [[r [Hr [Hd [_ [Hs _]]]]] _].
  exists r. split; [exact Hr|]. split; [exact Hd|exact Hs].
Defined.

(** X12: [get_column_expression] always returns, and returns an expression
    without ColumnReference tokens.  Its SQL is the SQL of the expression
    of the Series, qualified by the table alias, when that SQL is the
    quoted name of the Series; otherwise it is that SQL (in parentheses if
    the expression is NonAtomic), [ as ] and the quoted name. *)
Theorem get_column_expression_sql :
  forall (self : Series) (table_alias : option string),
    let sql := @sql_text sql_models table_alias (expression self) in
    let quoted := quote_identifier_model (name self) in
    exists r,
      @get_column_expression sql_models self table_alias = Ok r
      /\ has_column_reference r = false
      /\ @to_sql sql_models r None
         = Ok (if String.eqb sql quoted then sql
               else (parenthesized (expression self) sql ++ " as "
                     ++ escape_format_string_model quoted)%string).
Proof.
  intros self table_alias sql quoted. subst sql quoted.
  unfold get_column_expression.
  rewrite to_sql_ok, sql_text_resolve. simpl bind.
  change (@quote_identifier sql_models (name self))
    with (quote_identifier_model (name self)).
  destruct (String.eqb (@sql_text sql_models table_alias (expression self))
              (quote_identifier_model (name self))) eqn:E.
  - eexists. split; [reflexivity|].
    split; [apply resolve_no_column_reference|].
    now rewrite to_sql_ok, sql_text_resolve.
  - rewrite construct_ok by reflexivity.
    eexists. split; [reflexivity|]. split.
    + rewrite has_column_reference_new.
      change (split_fmt "{} as {}") with [EmptyString; " as "; EmptyString].
      unfold construct_elements, weave_list, operand_elements, is_NonAtomic.
      cbn [map weave weave_tail].
      pose proof (@resolve_no_column_reference sql_models (expression self)
                    table_alias) as Hr.
      destruct (cls_of (@resolve_column_references sql_models (expression self)
                          table_alias));
        simpl; rewrite Hr; reflexivity.
    + rewrite to_sql_ok, sql_text_construct_elements.
      change (split_fmt "{} as {}") with [EmptyString; " as "; EmptyString].
      unfold weave_str, operand_elements, parenthesized, is_NonAtomic, join.
      cbn [map weave weave_tail].
      rewrite resolve_cls.
      destruct (cls_of (expression self)); simpl;
        rewrite !sql_text_resolve, ?string_app_nil_r, ?string_app_assoc;
        reflexivity.
Qed.

(* ================================================================== *)
(** ** Subquery tests and operand checks *)

Lemma as_independent_subquery_dtype {B : BachEnv} (series : Series)
    (operation : option string) (d k : string) :
  In operation subquery_operations ->
  get_series_type_from_dtype d = Ok k ->
  as_independent_subquery series operation (Some d)
  = Ok (mkSeries k (engine series) (base_node series) []
          (name series)
          (Expr (if is_single_value (expression series)
                 then SingleValue else IndependentSubquery)
             (subquery_elements operation series))
          None (sorted_ascending series)).
Proof.
  intros Hop Hk. unfold as_independent_subquery.
  rewrite subquery_construct by exact Hop. simpl.
  unfold copy_override. rewrite Hk.
  destruct (is_single_value (expression series)); reflexivity.
Qed.

(** X13: when the dtype [bool] is registered, [exists] returns, for every
    Series, single-valued or not, a Series of that dtype whose expression
    is of the SingleValue class and has the elements of
    [exists (SELECT <column> FROM <materialized unit>)], with an empty
    index and no group_by. *)
Theorem exists_single_value :
  forall {B : BachEnv} (self : Series) (k : string),
    get_series_type_from_dtype "bool" = Ok k ->
    exists r,
      exists_ self = Ok r
      /\ dtype r = k
      /\ cls_of (expression r) = SingleValue
      /\ is_single_value (expression r) = true
      /\ data (expression r) = subquery_elements (Some "exists") self
      /\ index r = []
      /\ group_by r = None
      /\ name r = name self.
Proof.
  intros B self k Hk. unfold exists_.
  rewrite (@as_independent_subquery_dtype B self (Some "exists") "bool" k);
    auto; [|simpl; auto].
  simpl. eexists. split; [reflexivity|]. simpl.
  destruct (is_single_value (expression self)); repeat split; reflexivity.
Qed.

(** An instance of X13: a column that is not single-valued. *)
Lemma exists_single_value_witness :
  exists r,
    @exists_ bach_model (column "base" "int64" "x") = Ok r
    /\ cls_of (expression r) = SingleValue
    /\ @to_sql sql_models (expression r) None
       = Ok (String.append "exists (SELECT "
               (String dquote (String "x" (String dquote
                  " FROM {referencebase_x})")))).
Proof.
  destruct (@exists_single_value bach_model (column "base" "int64" "x") "bool"
              eq_refl)
    as [r [Hr [_ [Hc [_ [Hd _]]]]]].
  exists r. split; [exact Hr|]. split; [exact Hc|].
  rewrite to_sql_ok. destruct (expression r) as [c d]. simpl in Hd. subst d.
  reflexivity.
Defined.

(** X14: when the dtype [boolean] is registered, [isin] returns for every
    pair of Series, without any check of their contexts or dtypes: the
    result has the registered dtype and the index, group_by and base_node
    of the left-hand side; its expression is of the base class and renders
    as the SQL of the left-hand side (in parentheses if NonAtomic), a
    space, and [in (SELECT <column> FROM <unit>)] for the right-hand
    side. *)
Theorem isin_sql :
  forall {B : BachEnv} (self other : Series) (k : string)
         (table_name : option string),
    get_series_type_from_dtype "boolean" = Ok k ->
    exists r,
      isin self other = Ok r
      /\ dtype r = k
      /\ cls_of (expression r) = Plain
      /\ @to_sql sql_models (expression r) table_name
         = Ok (parenthesized (expression self)
                 (@sql_text sql_models table_name (expression self))
               ++ " in (SELECT "
               ++ escape_format_string_model
                    (@table_prefix sql_models table_name
                     ++ quote_identifier_model (name other))
               ++ " FROM {" ++ refname (materialize_base_node other) ++ "})")%string
      /\ index r = index self
      /\ group_by r = group_by self
      /\ base_node r = base_node self.
Proof.
  intros B self other k table_name Hk. unfold isin.
  rewrite as_independent_subquery_eq by (simpl; auto 6).
  cbn [bind]. rewrite construct_ok by reflexivity. cbn [bind].
  unfold copy_override. rewrite Hk. cbn [bind].
  eexists. split; [reflexivity|]. simpl.
  split; [reflexivity|]. split; [reflexivity|].
  split; [|repeat split; reflexivity].
  rewrite to_sql_ok, sql_text_construct_elements.
  change (split_fmt "{} {}") with [EmptyString; " "; EmptyString].
  unfold weave_str, operand_elements, parenthesized, is_NonAtomic, join.
  cbn [map weave weave_tail].
  destruct (is_single_value (expression other));
    destruct (cls_of (expression self)); simpl;
    rewrite ?string_app_nil_r, ?string_app_assoc; simpl;
    rewrite ?string_app_assoc; reflexivity.
Qed.

(** An instance of X14: a column tested against a column of another
    frame. *)
Lemma isin_sql_witness :
  exists r,
    @isin bach_model (column "base" "int64" "x") (column "other" "string" "y")
    = Ok r
    /\ dtype r = "bool"
    /\ @to_sql sql_models (expression r) None
       = Ok (String dquote (String "x" (String dquote
               (String.append " in (SELECT "
                  (String dquote (String "y" (String dquote
                     " FROM {referenceother_y})"))))))).
Proof.
  destruct (@isin_sql bach_model (column "base" "int64" "x")
              (column "other" "string" "y") "bool" None eq_refl)
    as [r [Hr [Hd [_ [Hs _]]]]].
  exists r. split; [exact Hr|]. split; [exact Hd|].
  rewrite Hs. reflexivity.
Defined.



(** X16: a binary operation that returns keeps the context of its
    left-hand side: the result has the engine, base_node, index, name,
    group_by and sorting of the left-hand side, whatever the right-hand
    side; its expression is NonAtomic, so it is put in parentheses when it
    is an operand of a later template; and it has an aggregate function
    exactly when the expression of the left-hand side or that of the
    checked right-hand side has one. *)
Theorem binary_operation_context :
  forall {B : BachEnv} (self other : Series) (fmt_str : string)
         (other_dtypes : list string) (dtype_arg : DtypeArg) (r : Series),
    _binary_operation self other fmt_str other_dtypes dtype_arg = Ok r ->
    engine r = engine self
    /\ base_node r = base_node self
    /\ index r = index self
    /\ name r = name self
    /\ group_by r = group_by self
    /\ sorted_ascending r = sorted_ascending self
    /\ is_NonAtomic (expression r) = true
    /\ operand_elements (expression r)
       = [Tok (RawToken "("); Sub (expression r); Tok (RawToken ")")]
    /\ exists o',
         _get_supported self other_dtypes other = Ok o'
         /\ has_aggregate_function (expression r)
            = has_aggregate_function (expression self)
              || has_aggregate_function (expression o').
Proof.
  intros B self other fmt_str other_dtypes dtype_arg r H.
  unfold _binary_operation in H.
  destruct (Nat.eqb (length other_dtypes) 0); [discriminate|].
  destruct (_get_supported self other_dtypes other) as [o'|] eqn:Eo;
    [|discriminate].
  cbn [bind] in H.
  destruct (construct NonAtomic fmt_str [expression self; expression o'])
    as [e|] eqn:Ec; [|discriminate].
  cbn [bind] in H. unfold copy_override in H.
  destruct (match result_dtype dtype_arg o' with
            | Some d => get_series_type_from_dtype d
            | None => Ok (dtype self)
            end) as [k|]; [|discriminate].
  simpl in H. injection H as <-. simpl.
  assert (Hagg : has_aggregate_function e
                 = has_aggregate_function (expression self)
                   || has_aggregate_function (expression o')).
  { apply construct_inv in Ec as [Hl ->].
    rewrite has_aggregate_function_new,
      has_aggregate_function_construct_elements;
      auto using split_fmt_nonempty.
    simpl. now rewrite orb_false_r. }
  assert (Hna : is_NonAtomic e = true).
  { apply construct_inv in Ec as [_ ->]. reflexivity. }
  repeat (split; [reflexivity|]).
  split; [exact Hna|]. split.
  - unfold operand_elements. now rewrite Hna.
  - exists o'. split; [reflexivity|exact Hagg].
Qed.

(** An instance of X16: the sum of two columns of a frame. *)
Lemma binary_operation_context_witness :
  exists r,
    @_binary_operation bach_model (column "base" "int64" "x")
      (column "base" "int64" "y") "{} + {}" ["int64"] DtypeNone = Ok r
    /\ base_node r = {| hash := "base" |}
    /\ is_NonAtomic (expression r) = true.
Proof.
  eexists. split; [reflexivity|].
  destruct (@binary_operation_context bach_model (column "base" "int64" "x")
              (column "base" "int64" "y") "{} + {}" ["int64"] DtypeNone _ eq_refl)
    as [_ [H2 [_ [_ [_ [_ [H7 _]]]]]]].
  split; [exact H2|exact H7].
Defined.



(* ================================================================== *)
(** ** More on the aggregation gate *)

(** What a call of the gate that returns went through. *)
Lemma derived_agg_func_inv {B : BachEnv} (self : Series)
    (partition : option Wrapped) (expression_arg : AggExpr)
    (dtype_arg : option string) (skipna : bool) (min_count : option Z)
    (r : Series) :
  _derived_agg_func self partition expression_arg dtype_arg skipna min_count
  = Ok r ->
  exists p e0 e1,
    effective_partition self partition = Ok p
    /\ match expression_arg with
       | AggName fn => construct AggregateFunction (fn ++ "({})")%string
                         [expression self] = Ok e0
       | AggExpression e => e = e0
       end
    /\ (is_Window p = true -> e1 = e0)
    /\ (forall n, min_count = Some n -> (0 < n)%Z -> is_Window p = true ->
                  min_values p = n)
    /\ if is_Window p
       then copy_override self
              (Some match dtype_arg with None => dtype self | Some d => d end)
              None None None None (Some (get_window_expression p e1)) None None
            = Ok r
       else has_aggregate_function e1 = true
            /\ copy_override self
                 (Some match dtype_arg with None => dtype self | Some d => d end)
                 None None (Some (gb_index p)) None
                 (Some match gb_index p with
                       | [] => new_Expression_of SingleValue e1
                       | _ :: _ => e1
                       end)
                 (Some (Some p)) None
               = Ok r.
Proof.
  intros H. unfold _derived_agg_func in H. rewrite derived_agg_func_fuel_eq in H.
  destruct (negb skipna); [discriminate|].
  destruct (has_windowed_aggregate_function (expression self)); [discriminate|].
  destruct (has_aggregate_function (expression self)); [discriminate|].
  destruct (match expression_arg with
            | AggName fn => construct AggregateFunction (fn ++ "({})")%string
                              [expression self]
            | AggExpression e => Ok e
            end) as [e0|] eqn:E0; [|discriminate].
  cbn [bind] in H.
  destruct (effective_partition self partition) as [p|]; [|discriminate].
  cbn [bind] in H.
  match type of H with
  | bind ?m _ = _ => destruct m as [e1|] eqn:E1; [|discriminate]
  end.
  cbn [bind] in H.
  exists p, e0, e1. split; [reflexivity|]. split.
  { destruct expression_arg; [exact E0|now injection E0]. }
  split.
  { intros Hw. rewrite Hw in E1. destruct min_count as [n|]; [|congruence].
    destruct (0 <? n)%Z; [|congruence].
    destruct (negb (min_values p =? n)%Z); [discriminate|congruence]. }
  split.
  { intros n -> Hn Hw. rewrite Hw in E1.
    apply Z.ltb_lt in Hn. rewrite Hn in E1.
    destruct (min_values p =? n)%Z eqn:Em; [now apply Z.eqb_eq|discriminate]. }
  destruct (is_Window p); simpl negb in H; cbv iota in H; [exact H|].
  destruct (match group_by self with
            | Some g => negb (GroupBy_eqb g p)
            | None => false
            end); [discriminate|].
  destruct (has_aggregate_function e1) eqn:Ea; [|discriminate].
  simpl negb in H. cbv iota in H. split; [reflexivity|exact H].
Qed.

(** X18: an aggregation over a partition that is not a window and has a
    grouping key returns a Series whose expression has an aggregate
    function, bound to the index of the partition with the partition as
    group_by; any aggregation or window function applied to that Series,
    with any arguments, raises the illegal-reaggregation ValueError. *)
Theorem grouped_aggregate_rejects_aggregation :
  forall {B : BachEnv} (self : Series) (partition : option Wrapped)
         (expression_arg : AggExpr) (dtype_arg : option string)
         (min_count : option Z) (p : GroupBy) (r : Series),
    effective_partition self partition = Ok p ->
    is_Window p = false ->
    gb_index p <> [] ->
    _derived_agg_func self partition expression_arg dtype_arg true min_count
    = Ok r ->
    has_aggregate_function (expression r) = true
    /\ index r = gb_index p
    /\ group_by r = Some p
    /\ forall partition' expression_arg' dtype_arg' min_count',
         exists err,
           _derived_agg_func r partition' expression_arg' dtype_arg' true min_count'
           = Raise err
           /\ (err = AlreadyWindowed \/ err = AlreadyAggregated)
           /\ exception_class err = ValueError.
Proof.
  intros B self partition expression_arg dtype_arg min_count p r Hp Hw Hi H.
  apply derived_agg_func_inv in H as [p' [e0 [e1 [Hp' [_ [_ [_ H]]]]]]].
  rewrite Hp in Hp'. injection Hp' as <-. rewrite Hw in H.
  destruct H as [Ha H]. unfold copy_override in H.
  destruct (get_series_type_from_dtype
              match dtype_arg with
              | Some d => d
              | None => dtype self
              end) as [k|]; [|discriminate].
  simpl in H. injection H as <-. simpl.
  assert (He : has_aggregate_function
                 match gb_index p with
                 | [] => new_Expression_of SingleValue e1
                 | _ :: _ => e1
                 end = true).
  { destruct (gb_index p); [congruence|exact Ha]. }
  split; [exact He|]. split; [reflexivity|]. split; [reflexivity|].
  intros partition' expression_arg' dtype_arg' min_count'.
  match goal with
  | |- context [_derived_agg_func ?s _ _ _ _ _] =>
      destruct (derived_agg_func_gate s partition' expression_arg' dtype_arg'
                  min_count') as [G1 G2];
      destruct (has_windowed_aggregate_function (expression s)) eqn:Ew
  end.
  - exists AlreadyWindowed. split; [now apply G1|]. split; [now left|reflexivity].
  - exists AlreadyAggregated. split; [now apply G2|].
    split; [now right|reflexivity].
Qed.

(** An instance of X18: the maximum per group, and its maximum. *)
Lemma grouped_aggregate_rejects_aggregation_witness :
  let g := mkGroupBy false [("g", column "base" "int64" "g")] 0 in
  exists r,
    @max bach_model (column "base" "int64" "x") (Some (WGroupBy g)) true = Ok r
    /\ exists err, @max bach_model r None true = Raise err
                   /\ exception_class err = ValueError.
Proof.
  intros g. eexists. split; [reflexivity|].
  destruct (@grouped_aggregate_rejects_aggregation bach_model
              (column "base" "int64" "x") (Some (WGroupBy g)) (AggName "max")
              None None g _ eq_refl eq_refl ltac:(discriminate) eq_refl)
    as [_ [_ [_ H]]].
  destruct (H None (AggName "max") None None) as [err [He [_ Hc]]].
  exists err. split; [exact He|exact Hc].
Defined.

(** X19: an aggregation over a window returns a Series with the index,
    group_by, base_node and name of the Series given; its expression is
    the window expression of the aggregate expression, which a minimum
    count never wraps; a positive minimum count is accepted only when it
    is the [min_values] of the window. *)
Theorem window_aggregate_keeps_index :
  forall {B : BachEnv} (self : Series) (partition : option Wrapped)
         (expression_arg : AggExpr) (dtype_arg : option string) (skipna : bool)
         (min_count : option Z) (p : GroupBy) (r : Series),
    effective_partition self partition = Ok p ->
    is_Window p = true ->
    _derived_agg_func self partition expression_arg dtype_arg skipna min_count
    = Ok r ->
    index r = index self
    /\ group_by r = group_by self
    /\ base_node r = base_node self
    /\ name r = name self
    /\ (exists e,
          expression r = get_window_expression p e
          /\ match expression_arg with
             | AggName fn => construct AggregateFunction (fn ++ "({})")%string
                               [expression self] = Ok e
             | AggExpression e' => e' = e
             end)
    /\ (forall n, min_count = Some n -> (0 < n)%Z -> min_values p = n).
Proof.
  intros B self partition expression_arg dtype_arg skipna min_count p r Hp Hw H.
  apply derived_agg_func_inv in H as [p' [e0 [e1 [Hp' [He0 [He1 [Hm H]]]]]]].
  rewrite Hp in Hp'. injection Hp' as <-. rewrite Hw in H.
  rewrite (He1 Hw) in H. unfold copy_override in H.
  destruct (get_series_type_from_dtype
              match dtype_arg with
              | Some d => d
              | None => dtype self
              end) as [k|]; [|discriminate].
  simpl in H. injection H as <-. simpl.
  repeat (split; [reflexivity|]). split.
  - exists e0. split; [reflexivity|exact He0].
  - intros n Hn Hpos. now apply Hm.
Qed.

(** An instance of X19: the row number over a window. *)
Lemma window_aggregate_keeps_index_witness :
  let w := mkGroupBy true [("g", column "base" "int64" "g")] 1 in
  let s := mkSeries "int64" "engine" {| hash := "base" |}
             [("i", column "base" "int64" "i")] "x"
             (column_reference Plain "x") None None in
  exists r,
    @window_row_number bach_model s (Some (WGroupBy w)) = Ok r
    /\ index r = [("i", column "base" "int64" "i")]
    /\ group_by r = None.
Proof.
  intros w s. eexists. split; [reflexivity|].
  destruct (@window_aggregate_keeps_index bach_model s (Some (WGroupBy w))
              (AggExpression (Expr Plain [Tok (RawToken "row_number()")]))
              (Some "int64") true None w _ eq_refl eq_refl eq_refl)
    as [H1 [H2 _]].
  split; [exact H1|exact H2].
Defined.

Lemma check_unwrap_groupby_eq (wrapped : option Wrapped) (isin : PartitionClass)
    (notin_Window : bool) :
  _check_unwrap_groupby wrapped isin notin_Window
  = match unwrapped wrapped with
    | None => Raise GroupByNotInstance
    | Some g =>
        if negb (match isin with AnyGroupBy => true | OnlyWindow => is_Window g end)
        then Raise GroupByNotInstance
        else if notin_Window && is_Window g
        then Raise GroupByNotSupported
        else Ok g
    end.
Proof. destruct wrapped as [[g|g]|]; reflexivity. Qed.

(** X20: the window functions look at their window first: unless the
    partition given, or the group_by of the DataFrame given, is a Window,
    each of them raises the ValueError of the partition class, whatever
    the Series, aggregated or not; with a Window, [nunique] raises the
    ValueError of the unsupported partition, and without a Window the
    window functions never reach the gate. *)
Theorem window_functions_need_window :
  forall {B : BachEnv} (self : Series) (window : option Wrapped),
    (match unwrapped window with
     | Some g => is_Window g = false
     | None => True
     end ->
     window_row_number self window = Raise GroupByNotInstance
     /\ window_rank self window = Raise GroupByNotInstance
     /\ window_dense_rank self window = Raise GroupByNotInstance
     /\ window_percent_rank self window = Raise GroupByNotInstance
     /\ window_cume_dist self window = Raise GroupByNotInstance
     /\ window_first_value self window = Raise GroupByNotInstance
     /\ window_last_value self window = Raise GroupByNotInstance
     /\ exception_class GroupByNotInstance = ValueError)
    /\ (forall g skipna,
          unwrapped window = Some g -> is_Window g = true ->
          nunique self window skipna = Raise GroupByNotSupported
          /\ exception_class GroupByNotSupported = ValueError).
Proof.
  intros B self window. split.
  - intros H.
    assert (G : _check_window window = Raise GroupByNotInstance).
    { unfold _check_window. rewrite check_unwrap_groupby_eq.
      destruct (unwrapped window) as [g|]; [|reflexivity].
      now rewrite H. }
    unfold window_row_number, window_rank, window_dense_rank,
      window_percent_rank, window_cume_dist, window_first_value,
      window_last_value, window_function.
    rewrite G. repeat split; reflexivity.
  - intros g skipna Hu Hw. split; [|reflexivity].
    unfold nunique. destruct window as [w|]; [|discriminate].
    rewrite check_unwrap_groupby_eq, Hu. simpl. now rewrite Hw.
Qed.

(** An instance of X20: a window function given a grouping that is not a
    window, on an aggregated Series; and [nunique] given a window. *)
Lemma window_functions_need_window_witness :
  let g := mkGroupBy false [("g", column "base" "int64" "g")] 0 in
  let w := mkGroupBy true [("g", column "base" "int64" "g")] 1 in
  let s := mkSeries "int64" "engine" {| hash := "base" |} [] "x"
             (Expr AggregateFunction [Tok (RawToken "max(x)")]) None None in
  @window_rank bach_model s (Some (WDataFrame (Some g))) = Raise GroupByNotInstance
  /\ @nunique bach_model s (Some (WGroupBy w)) true = Raise GroupByNotSupported.
Proof.
  intros g w s.
  destruct (@window_functions_need_window bach_model s
              (Some (WDataFrame (Some g)))) as [H1 _].
  destruct (@window_functions_need_window bach_model s (Some (WGroupBy w)))
    as [_ H2].
  split.
  - apply H1. reflexivity.
  - apply (H2 w true); reflexivity.
Defined.
